(** * Teen-Taal-AI: the transcript downloader [backend/get_transcripts.py]

  A shallow embedding of the script and the properties of its five
  components: the playlist lister, the transcript fetcher, the transcript
  cleaner, the persistence writer and the run orchestrator.

  Python text is a sequence of Unicode code points; a Python [int] is a
  [Z]; the two web APIs, the file system and the console are a world that
  is threaded through the effectful functions. *)

From Stdlib Require Import ZArith NArith QArith Ascii String DecimalString DecimalN.
From stdpp Require Import base option list sorting gmap.

Local Open Scope N_scope.

(** ** Python strings *)

Module PyStr.

(** A [str] is a sequence of code points. *)
Definition pystr := list N.

(** An ASCII literal, as the code points of its characters. *)
Definition py (s : string) : pystr := map N_of_ascii (list_ascii_of_string s).

Definition NEWLINE : N := 10.
Definition SPACE : N := 32.
Definition HYPHEN : N := 45.
Definition UNDERSCORE : N := 95.
Definition LBRACKET : N := 91.
Definition RBRACKET : N := 93.
Definition SLASH : N := 47.
Definition AMPERSAND : N := 38.

(** [Py_UNICODE_ISSPACE]: the code points that [str.strip()] trims and
    that [\s] matches in a [str] pattern. *)
Definition isspace (c : N) : bool :=
  ((9 <=? c) && (c <=? 13)) || ((28 <=? c) && (c <=? 31)) || (c =? 32)
  || (c =? 133) || (c =? 160) || (c =? 5760)
  || ((8192 <=? c) && (c <=? 8202))
  || (c =? 8232) || (c =? 8233) || (c =? 8239) || (c =? 8287) || (c =? 12288).

(** ASCII letters and digits. *)
Definition ascii_alnum (c : N) : bool :=
  ((48 <=? c) && (c <=? 57)) || ((65 <=? c) && (c <=? 90))
  || ((97 <=? c) && (c <=? 122)).

(** The interpreter's table of alphanumeric code points
    ([Py_UNICODE_ISALNUM]).  The table is part of the interpreter, not of
    the script; all that is used of it is its ASCII part. *)
Record UnicodeData := {
  isalnum : N -> bool;
  isalnum_ascii : forall c, c < 128 -> isalnum c = ascii_alnum c
}.

(** [\w] in a [str] pattern: alphanumeric or underscore. *)
Definition isword (U : UnicodeData) (c : N) : bool :=
  isalnum U c || (c =? UNDERSCORE).

(** [s.lstrip()], [s.rstrip()] and [s.strip()]. *)
Fixpoint lstrip (s : pystr) : pystr :=
  match s with
  | [] => []
  | c :: t => if isspace c then lstrip t else s
  end.

Definition rstrip (s : pystr) : pystr := reverse (lstrip (reverse s)).

Definition strip (s : pystr) : pystr := rstrip (lstrip s).

(** [sep.join(parts)]. *)
Fixpoint join (sep : pystr) (parts : list pystr) : pystr :=
  match parts with
  | [] => []
  | [p] => p
  | p :: ps => p ++ sep ++ join sep ps
  end.

(** [s.replace(a, b)] for one-character [a] and [b]. *)
Definition replace (a b : N) (s : pystr) : pystr :=
  map (fun c => if c =? a then b else c) s.

(** [a in s] for a one-character [a]. *)
Definition contains (a : N) (s : pystr) : bool := existsb (N.eqb a) s.

(** [s.split(a)[0]] for a one-character [a]: the text before the first [a]. *)
Fixpoint split_head (a : N) (s : pystr) : pystr :=
  match s with
  | [] => []
  | c :: t => if c =? a then [] else c :: split_head a t
  end.

(** [str(n)] for a natural number: its decimal digits. *)
Fixpoint digits (u : Decimal.uint) : pystr :=
  match u with
  | Decimal.Nil => []
  | Decimal.D0 u => 48 :: digits u
  | Decimal.D1 u => 49 :: digits u
  | Decimal.D2 u => 50 :: digits u
  | Decimal.D3 u => 51 :: digits u
  | Decimal.D4 u => 52 :: digits u
  | Decimal.D5 u => 53 :: digits u
  | Decimal.D6 u => 54 :: digits u
  | Decimal.D7 u => 55 :: digits u
  | Decimal.D8 u => 56 :: digits u
  | Decimal.D9 u => 57 :: digits u
  end.

Definition str_of_N (n : N) : pystr := digits (N.to_uint n).

(** [str(z)] for an [int]. *)
Definition str_of_Z (z : Z) : pystr :=
  if (z <? 0)%Z then HYPHEN :: str_of_N (Z.abs_N z) else str_of_N (Z.abs_N z).

(** [format(z, "03d")]: sign first, then zeros up to a total width of 3,
    then the digits; a number that needs more room takes it. *)
Definition format_03d (z : Z) : pystr :=
  let ds := str_of_N (Z.abs_N z) in
  if (z <? 0)%Z
  then HYPHEN :: repeat 48 (2 - length ds)%nat ++ ds
  else repeat 48 (3 - length ds)%nat ++ ds.

(** [b.startswith('/')] and [a.endswith('/')]. *)
Definition starts_with_sep (b : pystr) : bool :=
  match b with
  | c :: _ => c =? SLASH
  | [] => false
  end.

Definition ends_with_sep (a : pystr) : bool :=
  match last a with
  | Some d => d =? SLASH
  | None => false
  end.

(** [posixpath.join(a, b)]: an absolute [b] replaces [a]; otherwise [b]
    is appended, after a separator unless [a] is empty or ends with one. *)
Definition path_join (a b : pystr) : pystr :=
  if starts_with_sep b then b
  else if match a with [] => true | _ => ends_with_sep a end then a ++ b
  else a ++ SLASH :: b.

End PyStr.
Export PyStr.

(** ** The two regular expressions of the script *)

Module Regex.

(** After the opening bracket and the first character of the body have
    been read: [[^\]]*\]], returning the text after the closing bracket. *)
Fixpoint skip_to_close (t : pystr) : option pystr :=
  match t with
  | [] => None
  | c :: t' => if c =? RBRACKET then Some t' else skip_to_close t'
  end.

(** [re.match(r'\[[^\]]+\]', s)]: the text after the match, when the
    pattern matches at the start of [s]. The body takes at least one
    character and ends at the first closing bracket. *)
Definition match_marker (s : pystr) : option pystr :=
  match s with
  | c :: d :: t =>
      if (c =? LBRACKET) && negb (d =? RBRACKET) then skip_to_close t else None
  | _ => None
  end.

Definition marker_at (s : pystr) : bool :=
  match match_marker s with Some _ => true | None => false end.

(** [re.search(r'\[[^\]]+\]', s) is not None]. *)
Fixpoint has_marker (s : pystr) : bool :=
  match s with
  | [] => false
  | _ :: t => marker_at s || has_marker t
  end.

(** [re.sub(r'\[[^\]]+\]', '', s)]: scan from the left; where the
    pattern matches, drop the match and resume after it; elsewhere keep
    the character and move on by one. *)
Fixpoint sub_marker (s : pystr) : pystr :=
  match s with
  | [] => []
  | c :: t =>
      if marker_at (c :: t)
      then (fix resume (u : pystr) : pystr :=
              match u with
              | [] => []
              | d :: u' => if d =? RBRACKET then sub_marker u' else resume u'
              end) t
      else c :: sub_marker t
  end.

(** The class [[^\w\s-]] of the title pattern: what is deleted. *)
Definition unsafe_char (U : UnicodeData) (c : N) : bool :=
  negb (isword U c || isspace c || (c =? HYPHEN)).

(** [re.sub(r'[^\w\s-]', '', s)]. *)
Fixpoint sub_unsafe (U : UnicodeData) (s : pystr) : pystr :=
  match s with
  | [] => []
  | c :: t => if unsafe_char U c then sub_unsafe U t else c :: sub_unsafe U t
  end.

End Regex.
Export Regex.

(** ** Data model *)

(** One timed fragment of speech. The timing fields are the numbers of the
    transcript API, carried along and never computed with. *)
Record TranscriptEntry := {
  text : pystr;
  start : Q;
  duration : Q
}.

Definition Transcript := list TranscriptEntry.

(** An item of a page of the playlist API:
    [item["snippet"]["resourceId"]["videoId"]], [item["snippet"]["title"]]
    and the 0-based [item["snippet"]["position"]]. *)
Record PlaylistItem := {
  videoId : pystr;
  snippet_title : pystr;
  snippet_position : Z
}.

Record PlaylistPage := {
  items : list PlaylistItem;
  nextPageToken : option pystr
}.

(** The dictionary [{"id": .., "title": .., "position": ..}] built by the lister. *)
Record VideoDescriptor := {
  v_id : pystr;
  v_title : pystr;
  v_position : Z
}.

(** An instance of [Exception]; [str(e)] is its message. *)
Inductive exn := Exception (message : pystr).

Definition str_of_exn (e : exn) : pystr :=
  match e with Exception m => m end.

(** ** The world outside the script *)

(** A request sent to one of the two web APIs. *)
Inductive api_call :=
| PlaylistItemsList (api_key playlist_id : pystr) (pageToken : option pystr)
| GetTranscript (video_id : pystr) (languages : option (list pystr)).

(** The files on disk by path, the lines printed so far, the requests sent
    so far and the seconds slept. *)
Record World := {
  files : gmap (list N) (list N);
  stdout : list pystr;
  requests : list api_call;
  slept : nat
}.

(** The collaborators of the script. Each web API answers a request, given
    the requests sent before it, with a result or an exception; [open_w]
    says whether opening a path for writing raises on the present disk. *)
Record Env := {
  build : pystr -> option exn;
  playlistItems_list :
    list api_call -> pystr -> pystr -> option pystr -> exn + PlaylistPage;
  YouTubeTranscriptApi_get_transcript :
    list api_call -> pystr -> option (list pystr) -> exn + Transcript;
  json_dump : Transcript -> pystr;
  open_w : gmap (list N) (list N) -> pystr -> option exn;
  abspath : pystr -> pystr
}.

(** ** Effects: state, exceptions and loops that may not end *)

Inductive outcome (A : Type) :=
| Return (a : A)
| Raise (e : exn)
| Diverge.

Arguments Return {A} a.
Arguments Raise {A} e.
Arguments Diverge {A}.

Definition M (A : Type) : Type := World -> outcome A * World.

Definition ret {A} (a : A) : M A := fun w => (Return a, w).

Definition raise {A} (e : exn) : M A := fun w => (Raise e, w).

Definition bind {A B} (m : M A) (k : A -> M B) : M B :=
  fun w =>
    match m w with
    | (Return a, w') => k a w'
    | (Raise e, w') => (Raise e, w')
    | (Diverge, w') => (Diverge, w')
    end.

(** [try: m  except Exception as e: h e]. What [m] did to the world before
    it raised stays done. *)
Definition try_except {A} (m : M A) (h : exn -> M A) : M A :=
  fun w =>
    match m w with
    | (Raise e, w') => h e w'
    | r => r
    end.

Notation "'do' x <- m ; k" := (bind m (fun x => k))
  (at level 10, x name, m at level 100, k at level 200).
Notation "m ;; k" := (bind m (fun _ => k))
  (at level 100, k at level 200, right associativity).

Definition print (line : pystr) : M unit :=
  fun w =>
    (Return tt,
     {| files := files w; stdout := stdout w ++ [line];
        requests := requests w; slept := slept w |}).

Definition sleep (seconds : nat) : M unit :=
  fun w =>
    (Return tt,
     {| files := files w; stdout := stdout w;
        requests := requests w; slept := slept w + seconds |}).

Section Script.

Variable U : UnicodeData.
Variable E : Env.

(** [with open(path, 'w', encoding='utf-8') as f: f.write(content)]:
    [open] raises or the file holds [content] afterwards. *)
Definition write_file (path content : pystr) : M unit :=
  fun w =>
    match open_w E (files w) path with
    | Some e => (Raise e, w)
    | None =>
        (Return tt,
         {| files := <[path := content]> (files w); stdout := stdout w;
            requests := requests w; slept := slept w |})
    end.

(** One request to the transcript API. *)
Definition api_get_transcript (video_id : pystr) (languages : option (list pystr))
  : M Transcript :=
  fun w =>
    let w' := {| files := files w; stdout := stdout w;
                 requests := requests w ++ [GetTranscript video_id languages];
                 slept := slept w |} in
    match YouTubeTranscriptApi_get_transcript E (requests w) video_id languages with
    | inl e => (Raise e, w')
    | inr t => (Return t, w')
    end.

(** One request to the playlist API. *)
Definition api_playlistItems_list (api_key playlist_id : pystr)
  (pageToken : option pystr) : M PlaylistPage :=
  fun w =>
    let w' := {| files := files w; stdout := stdout w;
                 requests := requests w ++ [PlaylistItemsList api_key playlist_id pageToken];
                 slept := slept w |} in
    match playlistItems_list E (requests w) api_key playlist_id pageToken with
    | inl e => (Raise e, w')
    | inr p => (Return p, w')
    end.

Definition api_build (api_key : pystr) : M unit :=
  match build E api_key with
  | Some e => raise e
  | None => ret tt
  end.

(** *** Transcript fetcher *)

Definition LANG_HI : pystr := py "hi".
Definition LANG_HI_IN : pystr := py "hi-IN".

Definition could_not_get (video_id : pystr) (e : exn) : pystr :=
  py "Could not get transcript for video " ++ video_id ++ py ": " ++ str_of_exn e.

Definition get_transcript (video_id : pystr) : M (option Transcript) :=
  try_except
    (do transcript <- api_get_transcript video_id (Some [LANG_HI]);
     ret (Some transcript))
    (fun e =>
       try_except
         (do transcript <- api_get_transcript video_id (Some [LANG_HI_IN]);
          ret (Some transcript))
         (fun e2 =>
            try_except
              (do transcript <- api_get_transcript video_id None;
               ret (Some transcript))
              (fun e3 =>
                 print (could_not_get video_id e3) ;;
                 ret None))).

(** *** Transcript cleaner *)

(** Truth value of a transcript: [None] and the empty list are false. *)
Definition truthy (transcript : option Transcript) : bool :=
  match transcript with
  | Some (_ :: _) => true
  | _ => false
  end.

Definition clean_transcript (transcript : option Transcript) : pystr :=
  match transcript with
  | Some (e :: es) =>
      let text_parts := map text (e :: es) in
      let formatted_transcript := join [NEWLINE] text_parts in
      let clean_text := strip formatted_transcript in
      sub_marker clean_text
  | _ => []
  end.

(** *** Persistence writer *)

Definition safe_title (title : pystr) : pystr :=
  replace SPACE UNDERSCORE (strip (sub_unsafe U title)).

Definition base_filename (video_info : VideoDescriptor) : pystr :=
  format_03d (v_position video_info) ++ py "_" ++ safe_title (v_title video_info)
  ++ py "_" ++ v_id video_info.

Definition raw_path (video_info : VideoDescriptor) (raw_dir : pystr) : pystr :=
  path_join raw_dir (base_filename video_info ++ py ".json").

Definition clean_path (video_info : VideoDescriptor) (clean_dir : pystr) : pystr :=
  path_join clean_dir (base_filename video_info ++ py ".txt").

Definition save_transcript (video_info : VideoDescriptor)
  (transcript : option Transcript) (raw_dir clean_dir : pystr) : M bool :=
  match transcript with
  | Some (e :: es) =>
      write_file (raw_path video_info raw_dir) (json_dump E (e :: es)) ;;
      let clean_text := clean_transcript transcript in
      write_file (clean_path video_info clean_dir) clean_text ;;
      ret true
  | _ => ret false
  end.

(** *** Playlist lister *)

(** Truth value of a continuation token: [None] and [""] are false. *)
Definition token_truthy (token : option pystr) : bool :=
  match token with
  | Some (_ :: _) => true
  | _ => false
  end.

(** The dictionary appended for one item: the position is made 1-based. *)
Definition descriptor_of_item (item : PlaylistItem) : VideoDescriptor :=
  {| v_id := videoId item;
     v_title := snippet_title item;
     v_position := snippet_position item + 1 |}.

(** The [while True] loop: one page per round, until a page comes without
    a continuation token. [fuel] bounds the number of rounds. *)
Fixpoint fetch_pages (fuel : nat) (api_key playlist_id : pystr)
  (next_page_token : option pystr) (videos : list VideoDescriptor)
  : M (list VideoDescriptor) :=
  match fuel with
  | O => fun w => (Diverge, w)
  | S fuel' =>
      do playlist_response <-
        api_playlistItems_list api_key playlist_id next_page_token;
      let videos' := videos ++ map descriptor_of_item (items playlist_response) in
      let next_page_token' := nextPageToken playlist_response in
      if token_truthy next_page_token'
      then fetch_pages fuel' api_key playlist_id next_page_token' videos'
      else ret videos'
  end.

(** [videos.sort(key=lambda x: x["position"])]: a stable sort; among equal
    positions the order of arrival is kept. *)
Fixpoint insert_by_position (v : VideoDescriptor) (l : list VideoDescriptor)
  : list VideoDescriptor :=
  match l with
  | [] => [v]
  | y :: l' =>
      if (v_position v <=? v_position y)%Z then v :: l
      else y :: insert_by_position v l'
  end.

Definition sort_by_position (l : list VideoDescriptor) : list VideoDescriptor :=
  foldr insert_by_position [] l.

Definition clean_playlist_id (playlist_id : pystr) : pystr :=
  if contains AMPERSAND playlist_id then split_head AMPERSAND playlist_id
  else playlist_id.

Definition get_playlist_videos (fuel : nat) (playlist_id api_key : pystr)
  : M (list VideoDescriptor) :=
  let playlist_id := clean_playlist_id playlist_id in
  print (py "Using cleaned playlist ID: " ++ playlist_id) ;;
  api_build api_key ;;
  do videos <- fetch_pages fuel api_key playlist_id None [];
  ret (sort_by_position videos).

(** *** Run orchestrator *)

Definition TRANSCRIPTS_DIR : pystr := path_join (py "backend") (py "transcripts").
Definition RAW_DIR : pystr := path_join TRANSCRIPTS_DIR (py "raw").
Definition CLEAN_DIR : pystr := path_join TRANSCRIPTS_DIR (py "clean").

Definition str_of_nat (n : nat) : pystr := str_of_N (N.of_nat n).

Definition CHECK_MARK : N := 10003.
Definition BALLOT_X : N := 10007.

(** The lines printed for a video. *)
Definition SAVED : pystr := CHECK_MARK :: py " Saved transcript".
Definition FAILED_TO_SAVE : pystr := BALLOT_X :: py " Failed to save transcript".
Definition NO_TRANSCRIPT : pystr := BALLOT_X :: py " No transcript available".
Definition ERROR_PROCESSING (e : exn) : pystr :=
  BALLOT_X :: py " Error processing video: " ++ str_of_exn e.

(** The counters [(successful, failed)]. The script only prints them;
    here [main] also returns them. *)
Definition counters := (nat * nat)%type.

(** What the body of the [try] does with one video. *)
Definition try_video (video : VideoDescriptor) (c : counters) : M counters :=
  let '(successful, failed) := c in
  do transcript <- get_transcript (v_id video);
  if truthy transcript then
    do success <- save_transcript video transcript RAW_DIR CLEAN_DIR;
    if success : bool then
      print SAVED ;;
      ret (S successful, failed)
    else
      print FAILED_TO_SAVE ;;
      ret (successful, S failed)
  else
    print NO_TRANSCRIPT ;;
    ret (successful, S failed).

Definition processing_line (total i : nat) (video : VideoDescriptor) : pystr :=
  py "Processing " ++ str_of_nat (i + 1) ++ py "/" ++ str_of_nat total
  ++ py ": " ++ v_title video ++ py " (ID: " ++ v_id video ++ py ")".

(** One round of the [for] loop. *)
Definition process_video (total i : nat) (video : VideoDescriptor) (c : counters)
  : M counters :=
  print (processing_line total i video) ;;
  do c' <-
    try_except (try_video video c)
      (fun e =>
         print (ERROR_PROCESSING e) ;;
         ret (fst c, S (snd c)));
  sleep 1 ;;
  ret c'.

(** [for i, video in enumerate(videos)], from index [i] on. *)
Fixpoint process_videos (total i : nat) (videos : list VideoDescriptor)
  (c : counters) : M counters :=
  match videos with
  | [] => ret c
  | video :: rest =>
      do c' <- process_video total i video c;
      process_videos total (S i) rest c'
  end.

Definition main (fuel : nat) (PLAYLIST_ID YOUTUBE_API_KEY : pystr) : M counters :=
  print (py "Fetching videos from playlist: " ++ PLAYLIST_ID) ;;
  do videos <- get_playlist_videos fuel PLAYLIST_ID YOUTUBE_API_KEY;
  print (py "Found " ++ str_of_nat (length videos) ++ py " videos in the playlist") ;;
  do c <- process_videos (length videos) 0 videos (0, 0)%nat;
  let '(successful, failed) := c in
  print (NEWLINE :: py "Summary:") ;;
  print (py "- Successfully saved transcripts: " ++ str_of_nat successful) ;;
  print (py "- Failed to save transcripts: " ++ str_of_nat failed) ;;
  print (py "- Total videos processed: " ++ str_of_nat (successful + failed)) ;;
  print (NEWLINE :: py "Transcripts saved to:") ;;
  print (py "- Raw transcripts: " ++ abspath E RAW_DIR) ;;
  print (py "- Clean transcripts: " ++ abspath E CLEAN_DIR) ;;
  ret c.

End Script.

(** ** The claims of the specification, as it words them *)

Module SpecWords.

(** "Removing every square-bracket-delimited substring": from an opening
    bracket to the first closing bracket after it, whatever lies between. *)
Fixpoint remove_bracketed (s : pystr) : pystr :=
  match s with
  | [] => []
  | c :: t =>
      if (c =? LBRACKET) && bool_decide (is_Some (skip_to_close t))
      then (fix resume (u : pystr) : pystr :=
              match u with
              | [] => []
              | d :: u' => if d =? RBRACKET then remove_bracketed u' else resume u'
              end) t
      else c :: remove_bracketed t
  end.

(** The cleaner: text fields in order, joined by newline, trimmed, then
    every bracketed substring removed; the empty string for an empty or
    absent transcript. *)
Definition clean_transcript (transcript : option Transcript) : pystr :=
  match transcript with
  | Some (e :: es) => remove_bracketed (strip (join [NEWLINE] (map text (e :: es))))
  | _ => []
  end.

(** "Retaining only alphanumerics, spaces, and hyphens (everything else
    stripped) and then replacing internal spaces with underscores". *)
Definition sanitize (U : UnicodeData) (title : pystr) : pystr :=
  replace SPACE UNDERSCORE
    (filter (fun c => isalnum U c || (c =? SPACE) || (c =? HYPHEN)) title).

Definition base_filename (U : UnicodeData) (v : VideoDescriptor) : pystr :=
  format_03d (v_position v) ++ [UNDERSCORE] ++ sanitize U (v_title v)
  ++ [UNDERSCORE] ++ v_id v.

End SpecWords.

(** ** Vocabulary of the statements *)

(** No whitespace at either end. *)
Definition trimmed (s : pystr) : bool :=
  match s, last s with
  | c :: _, Some d => negb (isspace c) && negb (isspace d)
  | _, _ => true
  end.

(** The body of a marker: one character or more, none a closing bracket. *)
Definition marker_body (w : pystr) : Prop := w <> [] /\ (RBRACKET ∉ w).

(** The text [LBRACKET :: w ++ RBRACKET :: rest] starts with a marker. *)
Definition starts_with_marker (s : pystr) : Prop :=
  exists w rest, marker_body w /\ s = LBRACKET :: w ++ RBRACKET :: rest.

(** [Deleted s out]: [out] is [s] with its markers deleted, reading from
    the left: a marker is dropped whole and reading resumes after it; a
    character at which no marker starts is kept. *)
Inductive Deleted : pystr -> pystr -> Prop :=
| Deleted_nil : Deleted [] []
| Deleted_marker w rest out :
    marker_body w -> Deleted rest out ->
    Deleted (LBRACKET :: w ++ RBRACKET :: rest) out
| Deleted_keep c t out :
    ~ starts_with_marker (c :: t) -> Deleted t out ->
    Deleted (c :: t) (c :: out).

(** The characters the title pattern lets through. *)
Definition kept_char (U : UnicodeData) (c : N) : bool :=
  isalnum U c || (c =? UNDERSCORE) || isspace c || (c =? HYPHEN).

(** An entry with the given text. *)
Definition entry (s : pystr) : TranscriptEntry :=
  {| text := s; start := 0%Q; duration := 1%Q |}.

(** The alphanumeric table cut down to ASCII. *)
Definition ascii_table : UnicodeData :=
  {| isalnum := ascii_alnum; isalnum_ascii := fun c _ => eq_refl |}.

(** The three requests of the fallback chain, in order. *)
Definition attempt_hi (video_id : pystr) : api_call :=
  GetTranscript video_id (Some [LANG_HI]).
Definition attempt_hi_IN (video_id : pystr) : api_call :=
  GetTranscript video_id (Some [LANG_HI_IN]).
Definition attempt_any (video_id : pystr) : api_call :=
  GetTranscript video_id None.

(** [serves E key pid log token pages]: asked for the page at [token] after
    the requests [log], the playlist API hands out the item lists [pages]
    one after the other, each but the last with a continuation token. *)
Inductive serves (E : Env) (key pid : pystr)
  : list api_call -> option pystr -> list (list PlaylistItem) -> Prop :=
| serves_last log token page :
    playlistItems_list E log key pid token = inr page ->
    token_truthy (nextPageToken page) = false ->
    serves E key pid log token [items page]
| serves_more log token page rest :
    playlistItems_list E log key pid token = inr page ->
    token_truthy (nextPageToken page) = true ->
    serves E key pid (log ++ [PlaylistItemsList key pid token])
      (nextPageToken page) rest ->
    serves E key pid log token (items page :: rest).

(** [raises_after E key pid n log token e]: the playlist API hands out [n]
    pages with continuation tokens and raises [e] at the next request. *)
Inductive raises_after (E : Env) (key pid : pystr)
  : nat -> list api_call -> option pystr -> exn -> Prop :=
| raises_now log token e :
    playlistItems_list E log key pid token = inl e ->
    raises_after E key pid 0 log token e
| raises_later n log token page e :
    playlistItems_list E log key pid token = inr page ->
    token_truthy (nextPageToken page) = true ->
    raises_after E key pid n (log ++ [PlaylistItemsList key pid token])
      (nextPageToken page) e ->
    raises_after E key pid (S n) log token e.

(** Ascending by position. *)
Definition by_position (a b : VideoDescriptor) : Prop :=
  (v_position a <= v_position b)%Z.

(** The world before anything has happened. *)
Definition empty_world : World :=
  {| files := ∅; stdout := []; requests := []; slept := 0 |}.

(** *** A small playlist to run the script on

    Three videos on two pages, the first page out of order. The first
    video has a Hindi transcript, the second has none at all, the third
    only one in another language. Every file can be written. *)

Definition item (vid title : string) (position : Z) : PlaylistItem :=
  {| videoId := py vid; snippet_title := py title; snippet_position := position |}.

Definition demo_page1 : PlaylistPage :=
  {| items := [item "v1" "Beta: two" 1; item "v0" "Alpha_one" 0];
     nextPageToken := Some (py "T2") |}.

Definition demo_page2 : PlaylistPage :=
  {| items := [item "v2" "Gamma" 2]; nextPageToken := None |}.

Definition demo_transcripts (video_id : pystr) (languages : option (list pystr))
  : exn + Transcript :=
  if bool_decide (video_id = py "v0") then
    inr [entry (py "[Music]"); entry (py "namaste")]
  else if bool_decide (video_id = py "v2") then
    match languages with
    | None => inr [entry (py "hello")]
    | Some _ => inl (Exception (py "NoTranscriptFound"))
    end
  else inl (Exception (py "TranscriptsDisabled")).

Definition demo_env : Env :=
  {| build := fun _ => None;
     playlistItems_list := fun _ _ _ token =>
       match token with
       | None => inr demo_page1
       | Some _ => inr demo_page2
       end;
     YouTubeTranscriptApi_get_transcript := fun _ => demo_transcripts;
     json_dump := fun t => py "[" ++ join (py ", ") (map text t) ++ py "]";
     open_w := fun _ _ => None;
     abspath := fun p => path_join (py "/srv/app") p |}.

Definition demo_video : VideoDescriptor :=
  {| v_id := py "v0"; v_title := py "Alpha_one"; v_position := 1 |}.

Definition demo_transcript : Transcript :=
  [entry (py "[Music]"); entry (py "namaste")].

(** The same playlist behind an API whose second page raises, and behind
    one that never stops handing out continuation tokens. *)
Definition broken_env : Env :=
  {| build := build demo_env;
     playlistItems_list := fun _ _ _ token =>
       match token with
       | None => inr demo_page1
       | Some _ => inl (Exception (py "HttpError 503"))
       end;
     YouTubeTranscriptApi_get_transcript := YouTubeTranscriptApi_get_transcript demo_env;
     json_dump := json_dump demo_env;
     open_w := open_w demo_env;
     abspath := abspath demo_env |}.

Definition endless_env : Env :=
  {| build := build demo_env;
     playlistItems_list := fun _ _ _ _ => inr demo_page1;
     YouTubeTranscriptApi_get_transcript := YouTubeTranscriptApi_get_transcript demo_env;
     json_dump := json_dump demo_env;
     open_w := open_w demo_env;
     abspath := abspath demo_env |}.

(** A pair of brackets with nothing between them, somewhere in the text. *)
Fixpoint has_empty_brackets (s : pystr) : bool :=
  match s with
  | c :: (d :: _) as t => ((c =? LBRACKET) && (d =? RBRACKET)) || has_empty_brackets t
  | _ => false
  end.

(** The world after a line has been printed, and after a second of sleep. *)
Definition printed (line : pystr) (w : World) : World := snd (print line w).
Definition rested (w : World) : World := snd (sleep 1 w).

(** The decimal digits at the front of a text, and the [int] that the
    front of a file name spells: a sign, if any, then digits. *)
Fixpoint read_digits (s : pystr) : Decimal.uint :=
  match s with
  | [] => Decimal.Nil
  | c :: t =>
      if c =? 48 then Decimal.D0 (read_digits t)
      else if c =? 49 then Decimal.D1 (read_digits t)
      else if c =? 50 then Decimal.D2 (read_digits t)
      else if c =? 51 then Decimal.D3 (read_digits t)
      else if c =? 52 then Decimal.D4 (read_digits t)
      else if c =? 53 then Decimal.D5 (read_digits t)
      else if c =? 54 then Decimal.D6 (read_digits t)
      else if c =? 55 then Decimal.D7 (read_digits t)
      else if c =? 56 then Decimal.D8 (read_digits t)
      else if c =? 57 then Decimal.D9 (read_digits t)
      else Decimal.Nil
  end.

Definition read_position (s : pystr) : Z :=
  match s with
  | c :: t =>
      if c =? HYPHEN then (- Z.of_N (N.of_uint (read_digits t)))%Z
      else Z.of_N (N.of_uint (read_digits s))
  | [] => 0%Z
  end.

(** The lines of the console that begin with a given mark. *)
Definition marked (mark : N) (lines : list pystr) : nat :=
  length (filter (fun line => head line = Some mark) lines).

(** The small playlist on a disk where no file can be opened, and on one
    where text files cannot. *)
Definition locked_env : Env :=
  {| build := build demo_env;
     playlistItems_list := playlistItems_list demo_env;
     YouTubeTranscriptApi_get_transcript := YouTubeTranscriptApi_get_transcript demo_env;
     json_dump := json_dump demo_env;
     open_w := fun _ _ => Some (Exception (py "PermissionError"));
     abspath := abspath demo_env |}.

Definition no_text_env : Env :=
  {| build := build demo_env;
     playlistItems_list := playlistItems_list demo_env;
     YouTubeTranscriptApi_get_transcript := YouTubeTranscriptApi_get_transcript demo_env;
     json_dump := json_dump demo_env;
     open_w := fun _ path =>
       if bool_decide (last path = Some 116)
       then Some (Exception (py "PermissionError"))
       else None;
     abspath := abspath demo_env |}.

(** A playlist that comes in order, on two pages. *)
Definition ordered_page1 : PlaylistPage :=
  {| items := [item "v0" "Alpha_one" 0; item "v1" "Beta: two" 1];
     nextPageToken := Some (py "T2") |}.

Definition ordered_env : Env :=
  {| build := build demo_env;
     playlistItems_list := fun _ _ _ token =>
       match token with
       | None => inr ordered_page1
       | Some _ => inr demo_page2
       end;
     YouTubeTranscriptApi_get_transcript := YouTubeTranscriptApi_get_transcript demo_env;
     json_dump := json_dump demo_env;
     open_w := open_w demo_env;
     abspath := abspath demo_env |}.

(** A request for a page of the playlist [pid] with the key [key]. *)
Definition page_request (key pid : pystr) (r : api_call) : Prop :=
  exists token, r = PlaylistItemsList key pid token.

(** A request for the transcript of the video [video_id]. *)
Definition transcript_request (video_id : pystr) (r : api_call) : Prop :=
  exists languages, r = GetTranscript video_id languages.

(** The small playlist behind a transcript API that answers every
    request with a transcript of no entries. *)
Definition silent_env : Env :=
  {| build := build demo_env;
     playlistItems_list := playlistItems_list demo_env;
     YouTubeTranscriptApi_get_transcript := fun _ _ _ => inr [];
     json_dump := json_dump demo_env;
     open_w := open_w demo_env;
     abspath := abspath demo_env |}.

(** A playlist of one item that the API numbers 5. *)
Definition gap_page : PlaylistPage :=
  {| items := [item "v5" "Zeta" 5]; nextPageToken := None |}.

Definition gap_env : Env :=
  {| build := build demo_env;
     playlistItems_list := fun _ _ _ _ => inr gap_page;
     YouTubeTranscriptApi_get_transcript := YouTubeTranscriptApi_get_transcript demo_env;
     json_dump := json_dump demo_env;
     open_w := open_w demo_env;
     abspath := abspath demo_env |}.

(** Settle a decidable statement about given texts by evaluation. *)
Ltac by_evaluation :=
  match goal with
  | |- ?P => apply (bool_decide_unpack P); vm_compute; exact I
  end.

(** ** Strings: trimming *)

Lemma lstrip_fixed (c : N) (t : pystr) :
  isspace c = false -> lstrip (c :: t) = c :: t.
Proof. intros H. simpl. now rewrite H. Qed.

Lemma rstrip_fixed (s : pystr) (d : N) :
  last s = Some d -> isspace d = false -> rstrip s = s.
Proof.
  intros [r ->]%last_Some Hd. unfold rstrip.
  rewrite reverse_snoc, lstrip_fixed by assumption.
  now rewrite reverse_cons, reverse_involutive.
Qed.

Lemma strip_trimmed (s : pystr) : trimmed s = true -> strip s = s.
Proof.
  unfold trimmed, strip. destruct s as [|c t]; [reflexivity|].
  destruct (last (c :: t)) as [d|] eqn:Hl.
  - intros [Hc Hd]%andb_prop.
    apply negb_true_iff in Hc, Hd.
    rewrite lstrip_fixed by assumption. now apply rstrip_fixed with d.
  - now apply last_None in Hl.
Qed.

(** ** The marker pattern *)

Lemma skip_to_close_Some (t rest : pystr) :
  skip_to_close t = Some rest <->
  exists w, (RBRACKET ∉ w) /\ t = w ++ RBRACKET :: rest.
Proof.
  split.
  - revert rest. induction t as [|c t IH]; intros rest H; simpl in H; [discriminate|].
    destruct (c =? RBRACKET) eqn:Hc.
    + apply N.eqb_eq in Hc. injection H as ->. subst c.
      exists []. split; [apply not_elem_of_nil | reflexivity].
    + apply N.eqb_neq in Hc. destruct (IH _ H) as (w & Hw & ->).
      exists (c :: w). split; [|reflexivity].
      rewrite not_elem_of_cons. split; [congruence | assumption].
  - intros (w & Hw & ->). induction w as [|c w IH]; simpl.
    + reflexivity.
    + apply not_elem_of_cons in Hw as [Hc Hw].
      destruct (c =? RBRACKET) eqn:E; [apply N.eqb_eq in E; congruence | auto].
Qed.

Lemma skip_to_close_None (t : pystr) :
  skip_to_close t = None <-> RBRACKET ∉ t.
Proof.
  induction t as [|c t IH]; simpl.
  - split; [intros _; apply not_elem_of_nil | reflexivity].
  - rewrite not_elem_of_cons. destruct (c =? RBRACKET) eqn:E.
    + apply N.eqb_eq in E. split; [discriminate | intros [? _]; congruence].
    + apply N.eqb_neq in E. rewrite IH. split; [intros ?; split; [congruence | assumption] | tauto].
Qed.

Lemma match_marker_Some (s rest : pystr) :
  match_marker s = Some rest <->
  exists w, marker_body w /\ s = LBRACKET :: w ++ RBRACKET :: rest.
Proof.
  split.
  - destruct s as [|c [|d t]]; simpl; try discriminate.
    destruct (c =? LBRACKET) eqn:Hc; simpl; [|discriminate].
    destruct (d =? RBRACKET) eqn:Hd; simpl; [discriminate|].
    apply N.eqb_eq in Hc. apply N.eqb_neq in Hd. subst c.
    intros (w & Hw & ->)%skip_to_close_Some.
    exists (d :: w). split; [split | reflexivity]; [discriminate|].
    rewrite not_elem_of_cons. split; [congruence | assumption].
  - intros (w & [Hne Hw] & ->). destruct w as [|d w]; [congruence|].
    apply not_elem_of_cons in Hw as [Hd Hw]. simpl.
    destruct (d =? RBRACKET) eqn:E; [apply N.eqb_eq in E; congruence|]. simpl.
    apply skip_to_close_Some. now exists w.
Qed.

Lemma marker_at_spec (s : pystr) :
  marker_at s = true <-> starts_with_marker s.
Proof.
  unfold marker_at, starts_with_marker. split.
  - destruct (match_marker s) as [rest|] eqn:H; [|discriminate].
    intros _. apply match_marker_Some in H as (w & ? & ?). now exists w, rest.
  - intros (w & rest & Hw & Hs).
    assert (H : match_marker s = Some rest) by (apply match_marker_Some; now exists w).
    now rewrite H.
Qed.

Lemma match_marker_shorter (s rest : pystr) :
  match_marker s = Some rest -> (length rest < length s)%nat.
Proof.
  intros (w & _ & ->)%match_marker_Some. simpl. rewrite length_app. simpl. lia.
Qed.

(** The substitution, one step at a time: at a match, go on after it;
    elsewhere keep the character. *)
Lemma sub_marker_cons (c : N) (t : pystr) :
  sub_marker (c :: t) =
  match match_marker (c :: t) with
  | Some rest => sub_marker rest
  | None => c :: sub_marker t
  end.
Proof.
  change (sub_marker (c :: t)) with
    (if marker_at (c :: t)
     then (fix resume (u : pystr) : pystr :=
             match u with
             | [] => []
             | d :: u' => if d =? RBRACKET then sub_marker u' else resume u'
             end) t
     else c :: sub_marker t).
  unfold marker_at. destruct (match_marker (c :: t)) as [rest|] eqn:H; [|reflexivity].
  apply match_marker_Some in H as (w & [_ Hw] & [= -> ->]).
  induction w as [|d w IH]; simpl.
  - reflexivity.
  - apply not_elem_of_cons in Hw as [Hd Hw].
    destruct (d =? RBRACKET) eqn:E; [apply N.eqb_eq in E; congruence | auto].
Qed.

Lemma sub_marker_marker (w rest : pystr) :
  marker_body w -> sub_marker (LBRACKET :: w ++ RBRACKET :: rest) = sub_marker rest.
Proof.
  intros Hw. rewrite sub_marker_cons.
  assert (H : match_marker (LBRACKET :: w ++ RBRACKET :: rest) = Some rest)
    by (apply match_marker_Some; now exists w).
  now rewrite H.
Qed.

Lemma sub_marker_keep (c : N) (t : pystr) :
  marker_at (c :: t) = false -> sub_marker (c :: t) = c :: sub_marker t.
Proof.
  intros H. rewrite sub_marker_cons. unfold marker_at in H.
  now destruct (match_marker (c :: t)).
Qed.

(** Induction on the length of a text. *)
Lemma pystr_length_ind (P : pystr -> Prop) :
  (forall s, (forall s', (length s' < length s)%nat -> P s') -> P s) ->
  forall s, P s.
Proof.
  intros H s. remember (length s) as n eqn:Hn. revert s Hn.
  induction n as [n IH] using lt_wf_ind. intros s ->.
  apply H. intros s' Hlt. now apply (IH (length s')).
Qed.

(** The substitution meets its description. *)
Lemma sub_marker_Deleted (s : pystr) : Deleted s (sub_marker s).
Proof.
  induction s as [s IH] using pystr_length_ind.
  destruct s as [|c t]; [constructor|].
  rewrite sub_marker_cons. destruct (match_marker (c :: t)) as [rest|] eqn:H.
  - pose proof (match_marker_shorter _ _ H) as Hlt.
    apply match_marker_Some in H as (w & Hw & ->).
    apply Deleted_marker; [assumption | now apply IH].
  - apply Deleted_keep.
    + intros Hm%marker_at_spec. unfold marker_at in Hm. now rewrite H in Hm.
    + apply IH. simpl. lia.
Qed.

(** The description determines the result. *)
Lemma Deleted_sub_marker (s out : pystr) : Deleted s out -> out = sub_marker s.
Proof.
  induction 1 as [|w rest out Hw _ IH|c t out Hn _ IH].
  - reflexivity.
  - now rewrite sub_marker_marker.
  - rewrite sub_marker_keep; [now f_equal|].
    destruct (marker_at (c :: t)) eqn:E; [|reflexivity].
    now apply marker_at_spec in E.
Qed.

(** Without a marker nothing is deleted. *)
Lemma sub_marker_no_marker (s : pystr) : has_marker s = false -> sub_marker s = s.
Proof.
  induction s as [|c t IH]; [reflexivity|].
  intros [H1 H2]%orb_false_elim.
  rewrite sub_marker_keep by assumption. now rewrite IH.
Qed.

(** What is left comes from the text. *)
Lemma sub_marker_elem_of (x : N) (s : pystr) : x ∈ sub_marker s -> x ∈ s.
Proof.
  induction s as [s IH] using pystr_length_ind.
  destruct s as [|c t]; [trivial|].
  rewrite sub_marker_cons. destruct (match_marker (c :: t)) as [rest|] eqn:H.
  - pose proof (match_marker_shorter _ _ H) as Hlt.
    apply match_marker_Some in H as (w & Hw & Hs). rewrite Hs. intros Hx.
    apply IH in Hx; [|assumption].
    rewrite elem_of_cons, elem_of_app, elem_of_cons. tauto.
  - rewrite !elem_of_cons. intros [->|Hx]; [now left|right].
    apply IH; [simpl; lia | assumption].
Qed.

Lemma marker_at_open (c : N) (t : pystr) :
  marker_at (c :: t) = true <->
  c = LBRACKET /\ exists d t', t = d :: t' /\ d <> RBRACKET /\ (RBRACKET ∈ t').
Proof.
  unfold marker_at. destruct t as [|d t']; simpl.
  - split; [discriminate | intros (_ & ? & ? & ? & _); discriminate].
  - destruct (c =? LBRACKET) eqn:Hc; simpl.
    + apply N.eqb_eq in Hc. destruct (d =? RBRACKET) eqn:Hd; simpl.
      * apply N.eqb_eq in Hd. split; [discriminate|].
        intros (_ & ? & ? & [= <- <-] & ? & _). congruence.
      * apply N.eqb_neq in Hd.
        destruct (skip_to_close t') as [r|] eqn:Hs.
        -- split; [intros _|reflexivity]. split; [assumption|].
           exists d, t'. repeat split; [assumption|].
           destruct (decide (RBRACKET ∈ t')) as [?|Hn]; [assumption|].
           apply skip_to_close_None in Hn. congruence.
        -- split; [discriminate|]. intros (_ & ? & ? & [= <- <-] & _ & Hin).
           apply skip_to_close_None in Hs. contradiction.
    + apply N.eqb_neq in Hc. split; [discriminate | intros [? _]; congruence].
Qed.

Lemma marker_at_other (c : N) (t : pystr) :
  c <> LBRACKET -> marker_at (c :: t) = false.
Proof.
  intros Hc. destruct (marker_at (c :: t)) eqn:E; [|reflexivity].
  apply marker_at_open in E as [? _]. contradiction.
Qed.

(** No marker is left in the result. *)
Lemma sub_marker_clean (s : pystr) : has_marker (sub_marker s) = false.
Proof.
  induction s as [s IH] using pystr_length_ind.
  destruct s as [|c t]; [reflexivity|].
  rewrite sub_marker_cons. destruct (match_marker (c :: t)) as [rest|] eqn:H.
  - apply IH. now apply match_marker_shorter.
  - simpl. rewrite IH by (simpl; lia). rewrite orb_false_r.
    destruct (marker_at (c :: sub_marker t)) eqn:E; [|reflexivity].
    apply marker_at_open in E as (-> & d & u & Hsub & Hd & Hin).
    assert (Hm : marker_at (LBRACKET :: t) = true).
    { apply marker_at_open. split; [reflexivity|].
      destruct t as [|e t'']; [discriminate|].
      assert (He : e <> RBRACKET).
      { intros ->. rewrite sub_marker_keep in Hsub by (now apply marker_at_other).
        congruence. }
      exists e, t''. repeat split; [assumption|].
      assert (Hin' : RBRACKET ∈ e :: t'').
      { apply sub_marker_elem_of. rewrite Hsub. now right. }
      apply elem_of_cons in Hin' as [?|?]; [congruence | assumption]. }
    unfold marker_at in Hm. now rewrite H in Hm.
Qed.

(** Where the claim's wording and the pattern part: a pair of brackets
    with nothing between them. *)
Lemma remove_bracketed_cons (c : N) (t : pystr) :
  SpecWords.remove_bracketed (c :: t) =
  if c =? LBRACKET
  then match skip_to_close t with
       | Some rest => SpecWords.remove_bracketed rest
       | None => c :: SpecWords.remove_bracketed t
       end
  else c :: SpecWords.remove_bracketed t.
Proof.
  change (SpecWords.remove_bracketed (c :: t)) with
    (if (c =? LBRACKET) && bool_decide (is_Some (skip_to_close t))
     then (fix resume (u : pystr) : pystr :=
             match u with
             | [] => []
             | d :: u' =>
                 if d =? RBRACKET then SpecWords.remove_bracketed u' else resume u'
             end) t
     else c :: SpecWords.remove_bracketed t).
  destruct (c =? LBRACKET); simpl; [|reflexivity].
  destruct (skip_to_close t) as [rest|] eqn:H.
  - rewrite bool_decide_eq_true_2 by eauto.
    revert rest H. induction t as [|d t IH]; intros rest H; simpl in *; [discriminate|].
    destruct (d =? RBRACKET); [now injection H as -> | auto].
  - rewrite bool_decide_eq_false_2; [reflexivity|]. now intros [? ?].
Qed.

(** ** The cleaner *)

Lemma clean_transcript_unfold (e : TranscriptEntry) (es : Transcript) :
  clean_transcript (Some (e :: es)) =
  sub_marker (strip (join [NEWLINE] (map text (e :: es)))).
Proof. reflexivity. Qed.

(** C4, as the code has it: an absent or empty transcript cleans to the
    empty string; otherwise the text fields are taken in order, joined by
    newline, the whole is trimmed, and then every marker (an opening
    bracket, one or more characters other than a closing bracket, a closing
    bracket) is deleted, reading from the left, and nothing else: the
    result is the only text so described, and no marker is left in it.
    The entries "Hello", "[Music]", "world" clean to "Hello\n\nworld". *)
Theorem clean_transcript_deletes_markers (e : TranscriptEntry) (es : Transcript) :
  clean_transcript None = [] /\
  clean_transcript (Some []) = [] /\
  (forall out,
     Deleted (strip (join [NEWLINE] (map text (e :: es)))) out <->
     out = clean_transcript (Some (e :: es))) /\
  has_marker (clean_transcript (Some (e :: es))) = false /\
  clean_transcript (Some [entry (py "Hello"); entry (py "[Music]"); entry (py "world")])
  = py "Hello" ++ [NEWLINE; NEWLINE] ++ py "world".
Proof.
  repeat split; try reflexivity.
  - rewrite clean_transcript_unfold. apply Deleted_sub_marker.
  - intros ->. rewrite clean_transcript_unfold. apply sub_marker_Deleted.
  - rewrite clean_transcript_unfold. apply sub_marker_clean.
Qed.

(** C4, as worded, fails on empty brackets: they are a bracket-delimited
    substring, and the cleaner keeps them. *)
Lemma clean_transcript_keeps_empty_brackets :
  clean_transcript (Some [entry (py "a[]b")]) = py "a[]b" /\
  SpecWords.clean_transcript (Some [entry (py "a[]b")]) = py "ab" /\
  clean_transcript (Some [entry (py "a[]b")])
  <> SpecWords.clean_transcript (Some [entry (py "a[]b")]).
Proof. repeat split; try reflexivity. discriminate. Qed.

(** C8: a text without a marker and without whitespace at either end is
    returned as it is by the cleaner, for any transcript whose text fields
    join to it. *)
Theorem clean_transcript_fixes_clean_text (t : Transcript) (s : pystr) :
  join [NEWLINE] (map text t) = s ->
  has_marker s = false ->
  trimmed s = true ->
  clean_transcript (Some t) = s.
Proof.
  intros Hj Hm Ht. destruct t as [|e es].
  - now subst s.
  - rewrite clean_transcript_unfold, Hj, strip_trimmed by assumption.
    now apply sub_marker_no_marker.
Qed.

Lemma clean_transcript_fixes_clean_text_witness :
  join [NEWLINE] (map text [entry (py "Hello [] there"); entry (py "world")])
  = py "Hello [] there" ++ NEWLINE :: py "world" /\
  clean_transcript (Some [entry (py "Hello [] there"); entry (py "world")])
  = py "Hello [] there" ++ NEWLINE :: py "world".
Proof.
  split; [reflexivity|].
  apply (clean_transcript_fixes_clean_text
           [entry (py "Hello [] there"); entry (py "world")]); reflexivity.
Defined.

(** ** Strings: what trimming leaves *)

Lemma lstrip_head (s : pystr) (c : N) (t : pystr) :
  lstrip s = c :: t -> isspace c = false.
Proof.
  induction s as [|a s IH]; simpl; [discriminate|].
  destruct (isspace a) eqn:Ha; [assumption|].
  now intros [= <- _].
Qed.

Lemma lstrip_snoc (l : pystr) (c : N) :
  isspace c = false -> exists l', lstrip (l ++ [c]) = l' ++ [c].
Proof.
  intros Hc. induction l as [|a l IH]; simpl.
  - rewrite Hc. now exists [].
  - destruct (isspace a); [assumption | now exists (a :: l)].
Qed.

Lemma lstrip_elem_of (x : N) (s : pystr) : x ∈ lstrip s -> x ∈ s.
Proof.
  induction s as [|a s IH]; simpl; [trivial|].
  destruct (isspace a); [|trivial].
  intros H. right. now apply IH.
Qed.

Lemma strip_elem_of (x : N) (s : pystr) : x ∈ strip s -> x ∈ s.
Proof.
  unfold strip, rstrip. rewrite elem_of_reverse. intros H%lstrip_elem_of.
  rewrite elem_of_reverse in H. now apply lstrip_elem_of.
Qed.

Lemma trimmed_intro (c : N) (t : pystr) (d : N) :
  last (c :: t) = Some d -> isspace c = false -> isspace d = false ->
  trimmed (c :: t) = true.
Proof. intros Hl Hc Hd. unfold trimmed. now rewrite Hl, Hc, Hd. Qed.

Lemma strip_is_trimmed (s : pystr) : trimmed (strip s) = true.
Proof.
  unfold strip. destruct (lstrip s) as [|c t] eqn:Hu; [reflexivity|].
  pose proof (lstrip_head _ _ _ Hu) as Hc.
  unfold rstrip. rewrite reverse_cons.
  destruct (lstrip_snoc (reverse t) c Hc) as [l' Hl'].
  pose proof (lstrip_head (reverse t ++ [c])) as Hd.
  rewrite Hl' in *. rewrite reverse_snoc.
  destruct l' as [|d r].
  - now apply trimmed_intro with c.
  - apply trimmed_intro with d; [|assumption|now apply (Hd d (r ++ [c]))].
    change (c :: reverse (d :: r)) with (reverse [c] ++ reverse (d :: r)).
    rewrite <- reverse_app, last_reverse. reflexivity.
Qed.

Lemma strip_twice (s : pystr) : strip (strip s) = strip s.
Proof. apply strip_trimmed, strip_is_trimmed. Qed.

(** ** The title pattern and the file name *)

Lemma unsafe_char_kept (U : UnicodeData) (c : N) :
  unsafe_char U c = negb (kept_char U c).
Proof. reflexivity. Qed.

Lemma sub_unsafe_filter (U : UnicodeData) (s : pystr) :
  sub_unsafe U s = filter (fun c => kept_char U c) s.
Proof.
  induction s as [|c s IH]; [reflexivity|].
  rewrite (filter_cons (fun c => kept_char U c)). cbn [sub_unsafe].
  rewrite unsafe_char_kept, IH.
  now destruct (kept_char U c).
Qed.

Lemma sub_unsafe_elem_of (U : UnicodeData) (x : N) (s : pystr) :
  x ∈ sub_unsafe U s <-> x ∈ s /\ kept_char U x = true.
Proof.
  rewrite sub_unsafe_filter, list_elem_of_filter, Is_true_true. tauto.
Qed.

(** On ASCII text the interpreter's table plays no part. *)
Lemma sub_unsafe_ascii (U : UnicodeData) (s : pystr) :
  Forall (fun c => c < 128) s -> sub_unsafe U s = sub_unsafe ascii_table s.
Proof.
  induction 1 as [|c s Hc _ IH]; [reflexivity|].
  simpl. rewrite IH. unfold unsafe_char, isword.
  now rewrite (isalnum_ascii U c Hc).
Qed.

Lemma kept_underscore (U : UnicodeData) : kept_char U UNDERSCORE = true.
Proof.
  unfold kept_char. rewrite N.eqb_refl. now rewrite orb_true_r.
Qed.

Lemma safe_title_chars (U : UnicodeData) (title : pystr) (c : N) :
  c ∈ safe_title U title -> c <> SPACE /\ kept_char U c = true.
Proof.
  unfold safe_title, replace. rewrite list_elem_of_fmap.
  intros (x & -> & Hx). apply strip_elem_of, sub_unsafe_elem_of in Hx as [_ Hk].
  destruct (x =? SPACE) eqn:E.
  - split; [discriminate | apply kept_underscore].
  - apply N.eqb_neq in E. now split.
Qed.

Lemma format_03d_width (z : Z) : (3 <= length (format_03d z))%nat.
Proof.
  unfold format_03d. destruct (z <? 0)%Z; simpl;
    rewrite length_app, repeat_length; lia.
Qed.

Lemma format_03d_nonneg (z : Z) :
  (0 <= z)%Z ->
  format_03d z = repeat 48 (3 - length (str_of_N (Z.to_N z)))%nat ++ str_of_N (Z.to_N z).
Proof.
  intros Hz. unfold format_03d.
  destruct (z <? 0)%Z eqn:E; [apply Z.ltb_lt in E; lia|].
  now rewrite Zabs2N.abs_N_nonneg.
Qed.

(** Positions 0 to 999 take exactly three characters. *)
Lemma format_03d_three (z : Z) :
  (0 <= z < 1000)%Z -> length (format_03d z) = 3%nat.
Proof.
  intros Hz.
  assert (H : forallb (fun n => Nat.eqb (length (format_03d (Z.of_nat n))) 3)
                (seq 0 1000) = true) by (vm_compute; reflexivity).
  rewrite forallb_forall in H. specialize (H (Z.to_nat z)).
  rewrite Z2Nat.id in H by lia. apply Nat.eqb_eq, H, in_seq. lia.
Qed.

(** C5, as the code has it: the base file name is the position padded
    with zeros to three characters or more, an underscore, the safe title,
    an underscore and the raw video id. The safe title is the title with
    every character deleted that is not alphanumeric, an underscore,
    whitespace or a hyphen, then trimmed of whitespace at both ends, then
    with each space turned into an underscore; no space is left in it.
    The title "Intro: Part 1!" gives "Intro_Part_1". *)
Theorem base_filename_derivation (U : UnicodeData) (v : VideoDescriptor) :
  base_filename U v
  = format_03d (v_position v) ++ UNDERSCORE :: safe_title U (v_title v)
    ++ UNDERSCORE :: v_id v /\
  (3 <= length (format_03d (v_position v)))%nat /\
  safe_title U (v_title v)
  = replace SPACE UNDERSCORE (strip (filter (fun c => kept_char U c) (v_title v))) /\
  Forall (fun c => c <> SPACE /\ kept_char U c = true) (safe_title U (v_title v)) /\
  safe_title U (py "Intro: Part 1!") = py "Intro_Part_1".
Proof.
  split; [reflexivity|]. split; [apply format_03d_width|].
  split; [unfold safe_title; now rewrite sub_unsafe_filter|].
  split; [apply Forall_forall; intros c; apply safe_title_chars|].
  unfold safe_title. rewrite sub_unsafe_ascii; [reflexivity|].
  repeat (constructor; [reflexivity|]). constructor.
Qed.

(** C5, as worded, fails on a title with an underscore: the underscore is
    neither alphanumeric nor a space nor a hyphen, and it is kept. *)
Lemma base_filename_keeps_underscore :
  base_filename ascii_table
    {| v_id := py "x"; v_title := py "a_b"; v_position := 1 |} = py "001_a_b_x" /\
  SpecWords.base_filename ascii_table
    {| v_id := py "x"; v_title := py "a_b"; v_position := 1 |} = py "001_ab_x" /\
  base_filename ascii_table
    {| v_id := py "x"; v_title := py "a_b"; v_position := 1 |}
  <> SpecWords.base_filename ascii_table
       {| v_id := py "x"; v_title := py "a_b"; v_position := 1 |}.
Proof. repeat split; try reflexivity. discriminate. Qed.

(** ** The fetcher *)

Section Fetcher.

Variable E : Env.

(** The answer of the transcript API to a request sent after a log. *)
Local Abbreviation answer := (YouTubeTranscriptApi_get_transcript E).

Lemma api_get_transcript_run (video_id : pystr) (languages : option (list pystr))
  (w : World) :
  api_get_transcript E video_id languages w =
  (match answer (requests w) video_id languages with
   | inl e => Raise e
   | inr t => Return t
   end,
   {| files := files w; stdout := stdout w;
      requests := requests w ++ [GetTranscript video_id languages];
      slept := slept w |}).
Proof.
  unfold api_get_transcript.
  now destruct (YouTubeTranscriptApi_get_transcript E (requests w) video_id languages).
Qed.


(** C2: the fetcher always returns, and never an exception: either a
    transcript, or [None]. It returns [None] only when all three requests
    have raised, and then, and only then, it prints one line that holds
    the video id and the text of the last exception. It touches neither
    the files nor the clock. *)
Theorem get_transcript_never_raises (video_id : pystr) (w : World) :
  exists (result : option Transcript) (w' : World),
    get_transcript E video_id w = (Return result, w') /\
    files w' = files w /\ slept w' = slept w /\
    match result with
    | Some t =>
        stdout w' = stdout w /\
        exists log languages, answer log video_id languages = inr t
    | None =>
        exists e1 e2 e3,
          answer (requests w) video_id (Some [LANG_HI]) = inl e1 /\
          answer (requests w ++ [attempt_hi video_id]) video_id (Some [LANG_HI_IN])
          = inl e2 /\
          answer (requests w ++ [attempt_hi video_id; attempt_hi_IN video_id])
            video_id None = inl e3 /\
          requests w' =
            requests w
            ++ [attempt_hi video_id; attempt_hi_IN video_id; attempt_any video_id] /\
          stdout w' =
            stdout w
            ++ [py "Could not get transcript for video " ++ video_id ++ py ": "
                ++ str_of_exn e3]
    end.
Proof.
  unfold get_transcript, try_except, bind, ret, print.
  rewrite api_get_transcript_run. unfold attempt_hi, attempt_hi_IN, attempt_any.
  destruct (answer (requests w) video_id (Some [LANG_HI])) as [e1|t1] eqn:H1.
  2:{ eexists _, _. repeat split; eauto. }
  rewrite api_get_transcript_run. cbn [requests].
  destruct (answer _ video_id (Some [LANG_HI_IN])) as [e2|t2] eqn:H2.
  2:{ eexists _, _. repeat split; eauto. }
  rewrite api_get_transcript_run. cbn [requests].
  rewrite <- !app_assoc in *. cbn [app] in *.
  destruct (answer _ video_id None) as [e3|t3] eqn:H3.
  2:{ eexists _, _. repeat split; eauto. }
  eexists None, _. repeat split. exists e1, e2, e3. repeat split; assumption.
Qed.

End Fetcher.

(** ** The writer *)

Lemma path_join_last (a b : pystr) :
  b <> [] -> last (path_join a b) = last b.
Proof.
  intros Hb. unfold path_join.
  destruct (starts_with_sep b); [reflexivity|].
  destruct (match a with [] => true | _ :: _ => ends_with_sep a end).
  - rewrite last_app. destruct (last b) eqn:E; [reflexivity|].
    now apply last_None in E.
  - change (a ++ SLASH :: b) with (a ++ [SLASH] ++ b).
    rewrite app_assoc, last_app. destruct (last b) eqn:E; [reflexivity|].
    now apply last_None in E.
Qed.

(** The two artifacts of a video never share a path: one ends in
    [.json], the other in [.txt]. *)
Lemma raw_clean_distinct (U : UnicodeData) (v : VideoDescriptor)
  (raw_dir clean_dir : pystr) :
  raw_path U v raw_dir <> clean_path U v clean_dir.
Proof.
  unfold raw_path, clean_path. intros H. apply (f_equal last) in H.
  rewrite !path_join_last in H by (now destruct (base_filename U v)).
  change (py ".json") with (py ".jso" ++ [110]) in H.
  change (py ".txt") with (py ".tx" ++ [116]) in H.
  rewrite !app_assoc, !last_snoc in H. discriminate.
Qed.

Section Writer.

Variable U : UnicodeData.
Variable E : Env.

Lemma write_file_ok (path content : pystr) (w : World) :
  open_w E (files w) path = None ->
  write_file E path content w =
  (Return tt,
   {| files := <[path := content]> (files w); stdout := stdout w;
      requests := requests w; slept := slept w |}).
Proof. intros H. unfold write_file. now rewrite H. Qed.

Lemma write_file_fails (path content : pystr) (w : World) (e : exn) :
  open_w E (files w) path = Some e ->
  write_file E path content w = (Raise e, w).
Proof. intros H. unfold write_file. now rewrite H. Qed.

(** Given an empty or absent transcript the writer does nothing. *)
Lemma save_transcript_nothing (v : VideoDescriptor) (t : option Transcript)
  (raw_dir clean_dir : pystr) (w : World) :
  truthy t = false ->
  save_transcript U E v t raw_dir clean_dir w = (Return false, w).
Proof. destruct t as [[|e es]|]; [reflexivity | discriminate | reflexivity]. Qed.

(** Given a transcript with entries the writer returns [True] or raises:
    it never returns [False], and it always ends. *)
Lemma save_transcript_outcomes (v : VideoDescriptor) (t : option Transcript)
  (raw_dir clean_dir : pystr) (w : World) :
  truthy t = true ->
  (exists w', save_transcript U E v t raw_dir clean_dir w = (Return true, w')) \/
  (exists e w', save_transcript U E v t raw_dir clean_dir w = (Raise e, w')).
Proof.
  destruct t as [[|e es]|]; try discriminate. intros _.
  unfold save_transcript, bind, ret.
  destruct (open_w E (files w) (raw_path U v raw_dir)) as [x|] eqn:H1.
  - right. rewrite (write_file_fails _ _ _ x) by assumption. eauto.
  - rewrite write_file_ok by assumption.
    match goal with |- context [write_file E ?p ?c ?w1] =>
      destruct (open_w E (files w1) p) as [x|] eqn:H2;
      [right; rewrite (write_file_fails p c w1 x) by assumption
      |left; rewrite (write_file_ok p c w1) by assumption]
    end; eauto.
Qed.

(** The writer touches the files only. *)
Lemma save_transcript_clock (v : VideoDescriptor) (t : option Transcript)
  (raw_dir clean_dir : pystr) (w w' : World) (r : outcome bool) :
  save_transcript U E v t raw_dir clean_dir w = (r, w') ->
  slept w' = slept w /\ stdout w' = stdout w /\ requests w' = requests w.
Proof.
  destruct t as [[|e es]|]; cbn [save_transcript]; unfold ret;
    try (now intros [= _ <-]).
  unfold bind, write_file.
  destruct (open_w E (files w) (raw_path U v raw_dir)); [now intros [= _ <-]|].
  cbn [files]. destruct (open_w E _ (clean_path U v clean_dir));
    now intros [= _ <-].
Qed.

(** What the writer does when both files can be opened. *)
Lemma save_transcript_run (v : VideoDescriptor) (e : TranscriptEntry)
  (es : Transcript) (raw_dir clean_dir : pystr) (w : World) :
  open_w E (files w) (raw_path U v raw_dir) = None ->
  open_w E (<[raw_path U v raw_dir := json_dump E (e :: es)]> (files w))
    (clean_path U v clean_dir) = None ->
  save_transcript U E v (Some (e :: es)) raw_dir clean_dir w =
  (Return true,
   {| files := <[clean_path U v clean_dir := clean_transcript (Some (e :: es))]>
                 (<[raw_path U v raw_dir := json_dump E (e :: es)]> (files w));
      stdout := stdout w; requests := requests w; slept := slept w |}).
Proof.
  intros Hraw Hclean. unfold save_transcript, bind, ret.
  rewrite write_file_ok by assumption.
  now rewrite write_file_ok by assumption.
Qed.


End Writer.



(** ** Markers at the ends of a transcript *)

Lemma lstrip_app_nonblank (x y : pystr) :
  (exists c, c ∈ x /\ isspace c = false) -> lstrip (x ++ y) = lstrip x ++ y.
Proof.
  intros (c & Hin & Hc). induction x as [|a x IH]; [now apply elem_of_nil in Hin|].
  simpl. destruct (isspace a) eqn:Ha; [|reflexivity].
  apply IH. apply elem_of_cons in Hin as [->|?]; [congruence | assumption].
Qed.

Lemma rstrip_app_nonblank (a b : pystr) :
  (exists c, c ∈ b /\ isspace c = false) -> rstrip (a ++ b) = a ++ rstrip b.
Proof.
  intros (c & Hin & Hc). unfold rstrip.
  rewrite reverse_app, lstrip_app_nonblank.
  - now rewrite reverse_app, reverse_involutive.
  - exists c. now rewrite elem_of_reverse.
Qed.

Lemma sub_marker_app_plain (p s : pystr) :
  LBRACKET ∉ p -> sub_marker (p ++ s) = p ++ sub_marker s.
Proof.
  induction p as [|c p IH]; [reflexivity|].
  intros [Hc Hp]%not_elem_of_cons. simpl app.
  rewrite sub_marker_keep by (apply marker_at_other; congruence).
  now rewrite IH.
Qed.

Lemma join_snoc (sep : pystr) (parts : list pystr) (m : pystr) :
  parts <> [] -> join sep (parts ++ [m]) = join sep parts ++ sep ++ m.
Proof.
  induction parts as [|p ps IH]; [congruence|]. intros _.
  destruct ps as [|q ps]; [reflexivity|].
  change (join sep ((p :: q :: ps) ++ [m])) with (p ++ sep ++ join sep ((q :: ps) ++ [m])).
  rewrite IH by discriminate.
  change (join sep (p :: q :: ps)) with (p ++ sep ++ join sep (q :: ps)).
  now rewrite <- !app_assoc.
Qed.

Lemma strip_cons_nonblank (c : N) (x rest : pystr) :
  isspace c = false ->
  (exists d, d ∈ rest /\ isspace d = false) ->
  strip (c :: x ++ rest) = c :: x ++ rstrip rest.
Proof.
  intros Hc Hrest. unfold strip. rewrite lstrip_fixed by assumption.
  change (c :: x ++ rest) with ((c :: x) ++ rest).
  now rewrite rstrip_app_nonblank.
Qed.

Lemma strip_snoc_nonblank (init x : pystr) (c : N) :
  isspace c = false ->
  (exists d, d ∈ init /\ isspace d = false) ->
  strip (init ++ x ++ [c]) = lstrip init ++ x ++ [c].
Proof.
  intros Hc Hinit. unfold strip. rewrite lstrip_app_nonblank by assumption.
  apply rstrip_fixed with c; [|assumption].
  now rewrite !app_assoc, last_snoc.
Qed.

(** A marker in the first entry leaves its line empty: the cleaned text
    begins with a newline, as soon as some later text is not blank. *)
Lemma clean_transcript_leading_marker (body : pystr) (m e : TranscriptEntry)
  (es : Transcript) :
  marker_body body ->
  text m = LBRACKET :: body ++ [RBRACKET] ->
  (exists c, c ∈ join [NEWLINE] (map text (e :: es)) /\ isspace c = false) ->
  clean_transcript (Some (m :: e :: es))
  = NEWLINE :: sub_marker (rstrip (join [NEWLINE] (map text (e :: es)))).
Proof.
  intros Hb Hm Hrest. rewrite clean_transcript_unfold.
  change (join [NEWLINE] (map text (m :: e :: es)))
    with (text m ++ [NEWLINE] ++ join [NEWLINE] (map text (e :: es))).
  set (J := join [NEWLINE] (map text (e :: es))) in *.
  replace (text m ++ [NEWLINE] ++ J)
    with (LBRACKET :: (body ++ [RBRACKET; NEWLINE]) ++ J)
    by (rewrite Hm; simpl; now rewrite <- !app_assoc).
  rewrite strip_cons_nonblank by (reflexivity || assumption).
  rewrite <- app_assoc. simpl ([RBRACKET; NEWLINE] ++ rstrip J).
  rewrite sub_marker_marker by assumption.
  now rewrite sub_marker_keep by (now apply marker_at_other).
Qed.

(** A marker in the last entry does the same at the other end, when the
    text before it has no opening bracket and is not blank. *)
Lemma clean_transcript_trailing_marker (body : pystr) (m e : TranscriptEntry)
  (es : Transcript) :
  marker_body body ->
  text m = LBRACKET :: body ++ [RBRACKET] ->
  LBRACKET ∉ join [NEWLINE] (map text (e :: es)) ->
  (exists c, c ∈ join [NEWLINE] (map text (e :: es)) /\ isspace c = false) ->
  clean_transcript (Some ((e :: es) ++ [m]))
  = lstrip (join [NEWLINE] (map text (e :: es))) ++ [NEWLINE].
Proof.
  intros Hb Hm Hplain Hrest.
  change ((e :: es) ++ [m]) with (e :: (es ++ [m])). rewrite clean_transcript_unfold.
  change (e :: (es ++ [m])) with ((e :: es) ++ [m]).
  rewrite map_app. simpl (map text [m]). rewrite join_snoc by discriminate.
  set (P := join [NEWLINE] (map text (e :: es))) in *.
  replace (P ++ [NEWLINE] ++ text m)
    with (P ++ (NEWLINE :: LBRACKET :: body) ++ [RBRACKET])
    by (now rewrite Hm).
  rewrite strip_snoc_nonblank by (reflexivity || assumption).
  replace (lstrip P ++ (NEWLINE :: LBRACKET :: body) ++ [RBRACKET])
    with ((lstrip P ++ [NEWLINE]) ++ LBRACKET :: body ++ [RBRACKET])
    by (now rewrite <- app_assoc).
  rewrite sub_marker_app_plain.
  - rewrite sub_marker_marker by assumption. simpl. now rewrite app_nil_r.
  - rewrite not_elem_of_app. split.
    + intros H%lstrip_elem_of. contradiction.
    + rewrite not_elem_of_cons. split; [discriminate | apply not_elem_of_nil].
Qed.

Lemma untrimmed_head (c : N) (t : pystr) :
  isspace c = true -> trimmed (c :: t) = false.
Proof.
  intros Hc. unfold trimmed. destruct (last (c :: t)) eqn:E.
  - now rewrite Hc.
  - now apply last_None in E.
Qed.

Lemma untrimmed_last (init : pystr) (d : N) :
  isspace d = true -> trimmed (init ++ [d]) = false.
Proof.
  intros Hd. unfold trimmed.
  destruct (init ++ [d]) as [|c l] eqn:E; [now destruct init|].
  rewrite <- E, last_snoc, Hd. apply andb_false_r.
Qed.

(** C10: the writer can return [True] and leave a clean artifact that is
    empty or not trimmed, since the text is trimmed before the markers are
    deleted. A transcript whose only entry is "[Music]" gives an empty
    clean file. A transcript that opens with a marker and has other text
    after it gives a text that begins with a newline; one that closes with
    a marker, after text that has no opening bracket, gives a text that
    ends with a newline. *)
Theorem clean_artifact_empty_or_untrimmed (U : UnicodeData) (E : Env)
  (v : VideoDescriptor) (raw_dir clean_dir : pystr) (w : World) :
  (forall m : TranscriptEntry,
     text m = py "[Music]" ->
     open_w E (files w) (raw_path U v raw_dir) = None ->
     open_w E (<[raw_path U v raw_dir := json_dump E [m]]> (files w))
       (clean_path U v clean_dir) = None ->
     exists w',
       save_transcript U E v (Some [m]) raw_dir clean_dir w = (Return true, w') /\
       files w' !! clean_path U v clean_dir = Some []) /\
  (forall (body : pystr) (m e : TranscriptEntry) (es : Transcript),
     marker_body body ->
     text m = LBRACKET :: body ++ [RBRACKET] ->
     (exists c, c ∈ join [NEWLINE] (map text (e :: es)) /\ isspace c = false) ->
     (exists tail, clean_transcript (Some (m :: e :: es)) = NEWLINE :: tail) /\
     trimmed (clean_transcript (Some (m :: e :: es))) = false) /\
  (forall (body : pystr) (m e : TranscriptEntry) (es : Transcript),
     marker_body body ->
     text m = LBRACKET :: body ++ [RBRACKET] ->
     LBRACKET ∉ join [NEWLINE] (map text (e :: es)) ->
     (exists c, c ∈ join [NEWLINE] (map text (e :: es)) /\ isspace c = false) ->
     (exists init, clean_transcript (Some ((e :: es) ++ [m])) = init ++ [NEWLINE]) /\
     trimmed (clean_transcript (Some ((e :: es) ++ [m]))) = false).
Proof.
  split; [|split].
  - intros m Hm Hraw Hclean. eexists. split; [now apply save_transcript_run|].
    cbn [files]. rewrite lookup_insert_eq. f_equal.
    rewrite clean_transcript_unfold. simpl map. cbn [join]. now rewrite Hm.
  - intros body m e es Hb Hm Hrest.
    rewrite (clean_transcript_leading_marker body) by assumption.
    split; [eauto | now apply untrimmed_head].
  - intros body m e es Hb Hm Hplain Hrest.
    rewrite (clean_transcript_trailing_marker body) by assumption.
    split; [eauto | now apply untrimmed_last].
Qed.

Lemma clean_artifact_empty_or_untrimmed_witness :
  (exists w',
     save_transcript ascii_table demo_env demo_video (Some [entry (py "[Music]")])
       RAW_DIR CLEAN_DIR empty_world = (Return true, w') /\
     files w' !! clean_path ascii_table demo_video CLEAN_DIR = Some []) /\
  trimmed (clean_transcript (Some [entry (py "[Music]"); entry (py "namaste")])) = false /\
  trimmed (clean_transcript (Some ([entry (py "namaste")] ++ [entry (py "[Music]")])))
  = false.
Proof.
  destruct (clean_artifact_empty_or_untrimmed ascii_table demo_env demo_video
              RAW_DIR CLEAN_DIR empty_world) as (H1 & H2 & H3).
  split; [|split].
  - apply (H1 (entry (py "[Music]"))); reflexivity.
  - apply (H2 (py "Music") (entry (py "[Music]")) (entry (py "namaste")) []).
    + split; [discriminate | by_evaluation].
    + reflexivity.
    + exists 110. split; [by_evaluation | reflexivity].
  - apply (H3 (py "Music") (entry (py "[Music]")) (entry (py "namaste")) []).
    + split; [discriminate | by_evaluation].
    + reflexivity.
    + by_evaluation.
    + exists 110. split; [by_evaluation | reflexivity].
Defined.

(** ** The lister *)

Lemma insert_by_position_perm (v : VideoDescriptor) (l : list VideoDescriptor) :
  insert_by_position v l ≡ₚ v :: l.
Proof.
  induction l as [|y l IH]; simpl; [reflexivity|].
  destruct (v_position v <=? v_position y)%Z; [reflexivity|].
  rewrite IH. apply Permutation_swap.
Qed.

Lemma sort_by_position_perm (l : list VideoDescriptor) : sort_by_position l ≡ₚ l.
Proof.
  induction l as [|v l IH]; simpl; [reflexivity|].
  now rewrite insert_by_position_perm, IH.
Qed.

Lemma insert_by_position_hd (a v : VideoDescriptor) (l : list VideoDescriptor) :
  by_position a v -> HdRel by_position a l ->
  HdRel by_position a (insert_by_position v l).
Proof.
  intros Hav Hal. destruct l as [|y l]; simpl; [now constructor|].
  destruct (v_position v <=? v_position y)%Z; constructor; [assumption|].
  now inversion Hal.
Qed.

Lemma insert_by_position_sorted (v : VideoDescriptor) (l : list VideoDescriptor) :
  Sorted by_position l -> Sorted by_position (insert_by_position v l).
Proof.
  induction 1 as [|y l Hl IH Hy]; simpl; [repeat constructor|].
  destruct (Z.leb_spec (v_position v) (v_position y)) as [Hle|Hgt].
  - constructor; [now constructor | now constructor].
  - constructor; [assumption|].
    apply insert_by_position_hd; [unfold by_position; lia | assumption].
Qed.

Lemma sort_by_position_sorted (l : list VideoDescriptor) :
  Sorted by_position (sort_by_position l).
Proof.
  induction l as [|v l IH]; simpl; [constructor|].
  now apply insert_by_position_sorted.
Qed.

(** The sort is stable: the videos at any one position keep their order. *)
Lemma insert_by_position_at (k : Z) (v : VideoDescriptor) (l : list VideoDescriptor) :
  Sorted by_position l ->
  filter (fun x => v_position x = k) (insert_by_position v l)
  = filter (fun x => v_position x = k) (v :: l).
Proof.
  induction 1 as [|y l Hl IH Hy]; [reflexivity|]. simpl.
  destruct (Z.leb_spec (v_position v) (v_position y)) as [Hle|Hgt]; [reflexivity|].
  rewrite (filter_cons _ y), IH, !(filter_cons _ v), (filter_cons _ y).
  destruct (decide (v_position v = k)) as [Hv|Hv]; [|reflexivity].
  destruct (decide (v_position y = k)) as [Hk|Hk]; [lia | reflexivity].
Qed.

Lemma sort_by_position_stable (k : Z) (l : list VideoDescriptor) :
  filter (fun x => v_position x = k) (sort_by_position l)
  = filter (fun x => v_position x = k) l.
Proof.
  induction l as [|v l IH]; [reflexivity|]. simpl.
  rewrite insert_by_position_at by apply sort_by_position_sorted.
  now rewrite !(filter_cons _ v), IH.
Qed.

Lemma Sorted_seq_Z (a n : nat) : Sorted Z.le (map Z.of_nat (seq a n)).
Proof.
  revert a. induction n as [|n IH]; intros a; simpl; [constructor|].
  constructor; [apply IH|].
  destruct n; simpl; constructor. lia.
Qed.

(** Positions that are sorted and are 1 to N in some order are 1 to N. *)
Lemma sorted_positions (videos : list VideoDescriptor) (n : nat) :
  Sorted by_position videos ->
  map v_position videos ≡ₚ map Z.of_nat (seq 1 n) ->
  map v_position videos = map Z.of_nat (seq 1 n).
Proof.
  intros Hs Hp. apply (Sorted_unique Z.le); [|apply Sorted_seq_Z|assumption].
  now apply (Sorted_fmap v_position by_position Z.le).
Qed.

Lemma descriptor_positions (l : list PlaylistItem) :
  map v_position (map descriptor_of_item l) = map Z.succ (map snippet_position l).
Proof. induction l as [|x l IH]; simpl; [reflexivity|]. now rewrite IH. Qed.

Lemma succ_seq_Z (a n : nat) :
  map Z.succ (map Z.of_nat (seq a n)) = map Z.of_nat (seq (S a) n).
Proof.
  revert a. induction n as [|n IH]; intros a; simpl; [reflexivity|].
  rewrite IH. f_equal. lia.
Qed.

Section Lister.

Variable E : Env.

Lemma api_playlistItems_list_run (key pid : pystr) (token : option pystr)
  (page : PlaylistPage) (w : World) :
  playlistItems_list E (requests w) key pid token = inr page ->
  api_playlistItems_list E key pid token w =
  (Return page,
   {| files := files w; stdout := stdout w;
      requests := requests w ++ [PlaylistItemsList key pid token];
      slept := slept w |}).
Proof. intros H. unfold api_playlistItems_list. now rewrite H. Qed.

(** The loop ends once the pages are through, with the descriptors of all
    their items in the order of arrival, given fuel for one round a page. *)
Lemma fetch_pages_run (key pid : pystr) (log : list api_call)
  (token : option pystr) (pages : list (list PlaylistItem)) :
  serves E key pid log token pages ->
  forall (fuel : nat) (videos : list VideoDescriptor) (w : World),
    requests w = log ->
    (length pages <= fuel)%nat ->
    exists w',
      fetch_pages E fuel key pid token videos w
      = (Return (videos ++ map descriptor_of_item (concat pages)), w') /\
      files w' = files w /\ stdout w' = stdout w /\ slept w' = slept w.
Proof.
  induction 1 as [log token page Hpage Hlast|log token page rest Hpage Hmore _ IH];
    intros fuel videos w Hlog Hfuel;
    (destruct fuel as [|fuel]; [simpl in Hfuel; lia|]);
    cbn [fetch_pages]; unfold bind;
    rewrite (api_playlistItems_list_run key pid token page) by (now rewrite Hlog).
  - rewrite Hlast. eexists. split.
    + unfold ret. simpl concat. now rewrite app_nil_r.
    + now repeat split.
  - rewrite Hmore.
    destruct (IH fuel (videos ++ map descriptor_of_item (items page))
                {| files := files w; stdout := stdout w;
                   requests := requests w ++ [PlaylistItemsList key pid token];
                   slept := slept w |}) as (w' & Hrun & Hf & Ho & Hs).
    + cbn [requests]. now rewrite Hlog.
    + simpl in Hfuel. lia.
    + exists w'. split; [|repeat split; assumption].
      rewrite Hrun. simpl concat. now rewrite map_app, app_assoc.
Qed.

(** C7, as the code has it: when the client can be built and the playlist
    API serves the playlist as a run of pages, the lister returns, with one
    descriptor for each item of each page: the same id and title, and the
    item's 0-based position plus one. The descriptors are sorted by
    position, ascending. The lister takes the numbering as the API gives
    it: provided the items are numbered 0 to N-1, in whatever order the
    pages bring them, the positions returned are 1, 2, ..., N. *)
Theorem get_playlist_videos_sorted (fuel : nat) (playlist_id api_key : pystr)
  (pages : list (list PlaylistItem)) (w : World) :
  build E api_key = None ->
  serves E api_key (clean_playlist_id playlist_id) (requests w) None pages ->
  (length pages <= fuel)%nat ->
  let source := concat pages in
  exists videos w',
    get_playlist_videos E fuel playlist_id api_key w = (Return videos, w') /\
    Sorted by_position videos /\
    videos ≡ₚ map descriptor_of_item source /\
    (forall v, v ∈ videos ->
       exists it, it ∈ source /\ v_id v = videoId it /\
         v_title v = snippet_title it /\
         v_position v = (snippet_position it + 1)%Z) /\
    (map snippet_position source ≡ₚ map Z.of_nat (seq 0 (length source)) ->
     map v_position videos = map Z.of_nat (seq 1 (length source))).
Proof.
  intros Hbuild Hserves Hfuel source.
  unfold get_playlist_videos, bind, print, api_build. rewrite Hbuild. unfold ret.
  match goal with |- context [fetch_pages E fuel ?k ?p None [] ?w0] =>
    destruct (fetch_pages_run k p _ None pages Hserves fuel [] w0 eq_refl Hfuel)
      as (w' & Hrun & _)
  end.
  rewrite Hrun. simpl app. fold source.
  exists (sort_by_position (map descriptor_of_item source)), w'.
  split; [reflexivity|]. split; [apply sort_by_position_sorted|].
  split; [apply sort_by_position_perm|]. split.
  - intros v Hv. rewrite sort_by_position_perm in Hv.
    apply list_elem_of_fmap in Hv as (it & -> & Hit). now exists it.
  - intros Hnum. apply sorted_positions; [apply sort_by_position_sorted|].
    rewrite sort_by_position_perm, descriptor_positions.
    rewrite <- succ_seq_Z. now apply Permutation_map.
Qed.

End Lister.

Lemma get_playlist_videos_sorted_witness :
  exists videos w',
    get_playlist_videos demo_env 2 (py "PL123&index=2") (py "KEY") empty_world
    = (Return videos, w') /\
    map v_id videos = [py "v0"; py "v1"; py "v2"] /\
    map v_position videos = [1; 2; 3]%Z.
Proof.
  destruct (get_playlist_videos_sorted demo_env 2 (py "PL123&index=2") (py "KEY")
              [items demo_page1; items demo_page2] empty_world)
    as (videos & w' & Hrun & _ & _ & _ & Hpos).
  - reflexivity.
  - apply serves_more with (page := demo_page1); [reflexivity | reflexivity|].
    apply serves_last with (page := demo_page2); reflexivity.
  - simpl. lia.
  - exists videos, w'. split; [exact Hrun|]. split.
    + vm_compute in Hrun. injection Hrun as <- _. reflexivity.
    + apply Hpos. simpl. apply Permutation_swap.
Defined.

(** C7, as worded, fails on a playlist whose one item the API numbers 5:
    the lister returns position 6, not 1. *)
Lemma get_playlist_videos_copies_gap :
  serves gap_env (py "KEY") (clean_playlist_id (py "PL9")) [] None [items gap_page] /\
  fst (get_playlist_videos gap_env 1 (py "PL9") (py "KEY") empty_world)
  = Return [{| v_id := py "v5"; v_title := py "Zeta"; v_position := 6 |}] /\
  map v_position [{| v_id := py "v5"; v_title := py "Zeta"; v_position := 6 |}]
  <> map Z.of_nat (seq 1 1).
Proof.
  split; [|split].
  - apply serves_last with (page := gap_page); reflexivity.
  - reflexivity.
  - discriminate.
Qed.

(** ** The orchestrator *)

Section Orchestrator.

Variable U : UnicodeData.
Variable E : Env.

(** The fetcher returns, whatever the transcript API does. *)
Lemma get_transcript_returns (video_id : pystr) (w : World) :
  exists fetched w',
    get_transcript E video_id w = (Return fetched, w') /\
    files w' = files w /\ slept w' = slept w.
Proof.
  unfold get_transcript, try_except, bind, ret, print, api_get_transcript.
  destruct (YouTubeTranscriptApi_get_transcript E (requests w) video_id _);
    [|eexists _, _; repeat split].
  cbn [requests].
  destruct (YouTubeTranscriptApi_get_transcript E _ video_id (Some [LANG_HI_IN]));
    [|eexists _, _; repeat split].
  cbn [requests].
  destruct (YouTubeTranscriptApi_get_transcript E _ video_id None);
    eexists _, _; repeat split.
Qed.

(** One round of the loop, by what the fetcher and the writer do in it. *)
Lemma process_video_cases (total i : nat) (video : VideoDescriptor)
  (successful failed : nat) (w : World) :
  let w0 := printed (processing_line total i video) w in
  let c := (successful, failed) in
  exists fetched w1,
    get_transcript E (v_id video) w0 = (Return fetched, w1) /\
    ((truthy fetched = false /\
      try_video U E video c w0 = (Return (successful, S failed), printed NO_TRANSCRIPT w1) /\
      process_video U E total i video c w
      = (Return (successful, S failed), rested (printed NO_TRANSCRIPT w1)))
     \/
     (truthy fetched = true /\
      exists w2,
        save_transcript U E video fetched RAW_DIR CLEAN_DIR w1 = (Return true, w2) /\
        try_video U E video c w0 = (Return (S successful, failed), printed SAVED w2) /\
        process_video U E total i video c w
        = (Return (S successful, failed), rested (printed SAVED w2)))
     \/
     (truthy fetched = true /\
      exists e w2,
        save_transcript U E video fetched RAW_DIR CLEAN_DIR w1 = (Raise e, w2) /\
        try_video U E video c w0 = (Raise e, w2) /\
        process_video U E total i video c w
        = (Return (successful, S failed), rested (printed (ERROR_PROCESSING e) w2)))).
Proof.
  intros w0 c.
  destruct (get_transcript_returns (v_id video) w0) as (fetched & w1 & Hget & _).
  exists fetched, w1. split; [assumption|].
  assert (Hpv : process_video U E total i video c w =
                match try_video U E video c w0 with
                | (Return c', w2) => (Return c', rested w2)
                | (Raise e, w2) =>
                    (Return (successful, S failed), rested (printed (ERROR_PROCESSING e) w2))
                | (Diverge, w2) => (Diverge, w2)
                end).
  { unfold process_video, bind, try_except. cbn [print fst snd]. fold w0.
    change {| files := files w; stdout := stdout w ++ [processing_line total i video];
              requests := requests w; slept := slept w |} with w0.
    now destruct (try_video U E video c w0) as [[c'|e|] w2]. }
  assert (Htv : try_video U E video c w0 =
                if truthy fetched then
                  match save_transcript U E video fetched RAW_DIR CLEAN_DIR w1 with
                  | (Return true, w2) => (Return (S successful, failed), printed SAVED w2)
                  | (Return false, w2) =>
                      (Return (successful, S failed),
                       printed FAILED_TO_SAVE w2)
                  | (Raise e, w2) => (Raise e, w2)
                  | (Diverge, w2) => (Diverge, w2)
                  end
                else (Return (successful, S failed), printed NO_TRANSCRIPT w1)).
  { unfold try_video, c, bind. rewrite Hget.
    destruct (truthy fetched); [|reflexivity].
    now destruct (save_transcript U E video fetched RAW_DIR CLEAN_DIR w1)
      as [[[|]|e|] w2]. }
  destruct (truthy fetched) eqn:Ht.
  - right. destruct (save_transcript_outcomes U E video fetched RAW_DIR CLEAN_DIR w1 Ht)
      as [(w2 & Hs)|(e & w2 & Hs)]; rewrite Hs in Htv; rewrite Htv in Hpv.
    + left. split; [reflexivity|]. now exists w2.
    + right. split; [reflexivity|]. now exists e, w2.
  - left. rewrite Htv in Hpv. now repeat split.
Qed.

(** The loop goes through all the videos and counts each of them once. *)
Lemma process_videos_run (total : nat) (videos : list VideoDescriptor) :
  forall (i successful failed : nat) (w : World),
  exists s' f' w',
    process_videos U E total i videos (successful, failed) w = (Return (s', f'), w') /\
    (s' + f' = successful + failed + length videos)%nat /\
    slept w' = (slept w + length videos)%nat.
Proof.
  induction videos as [|video rest IH]; intros i successful failed w.
  - exists successful, failed, w. simpl. repeat split; lia.
  - cbn [process_videos]. unfold bind.
    destruct (process_video_cases total i video successful failed w)
      as (fetched & w1 & Hget & Hcases).
    destruct (get_transcript_returns (v_id video)
                (printed (processing_line total i video) w)) as (r & w1' & Hget' & _ & Hs1).
    rewrite Hget in Hget'. injection Hget' as <- <-.
    destruct Hcases as [(Ht & _ & Hpv)|[(Ht & w2 & Hsave & _ & Hpv)|(Ht & e & w2 & Hsave & _ & Hpv)]];
      rewrite Hpv;
      match goal with |- context [process_videos U E total (S i) rest (?a, ?b) ?w3] =>
        destruct (IH (S i) a b w3) as (s' & f' & w' & Hrun & Hsum & Hslept)
      end;
      exists s', f', w'; (split; [assumption|]); (split; [simpl; lia|]);
      rewrite Hslept; cbn [rested printed sleep print snd slept length].
    + rewrite Hs1. cbn. lia.
    + apply save_transcript_clock in Hsave as [Hs2 _]. rewrite Hs2, Hs1. cbn. lia.
    + apply save_transcript_clock in Hsave as [Hs2 _]. rewrite Hs2, Hs1. cbn. lia.
Qed.

(** C6: in one round of the loop the fetcher returns; then [successful]
    goes up by one exactly when it returned a transcript and the writer,
    given that transcript, returned [True]; [failed] goes up by one exactly
    when the fetcher returned [None], or the writer, given what was
    fetched, returns [False] (so it is for an empty transcript, on which
    the orchestrator does not call it), or the body of the [try] raised.
    The round itself never raises, and the loop goes on to the next video. *)
Theorem process_video_counts (total i : nat) (video : VideoDescriptor)
  (successful failed : nat) (w : World) :
  let w0 := printed (processing_line total i video) w in
  exists (fetched : option Transcript) (w1 : World) (c' : counters) (w' : World),
    get_transcript E (v_id video) w0 = (Return fetched, w1) /\
    process_video U E total i video (successful, failed) w = (Return c', w') /\
    (c' = (S successful, failed) <->
     fetched <> None /\
     exists w2,
       save_transcript U E video fetched RAW_DIR CLEAN_DIR w1 = (Return true, w2)) /\
    (c' = (successful, S failed) <->
     fetched = None \/
     (exists w2,
        save_transcript U E video fetched RAW_DIR CLEAN_DIR w1 = (Return false, w2)) \/
     (exists e w2,
        try_video U E video (successful, failed) w0 = (Raise e, w2))) /\
    (forall rest,
       process_videos U E total i (video :: rest) (successful, failed) w
       = process_videos U E total (S i) rest c' w').
Proof.
  intros w0.
  destruct (process_video_cases total i video successful failed w)
    as (fetched & w1 & Hget & Hcases). fold w0 in Hget, Hcases.
  exists fetched, w1.
  destruct Hcases as [(Ht & Htv & Hpv)|[(Ht & w2 & Hsave & Htv & Hpv)|(Ht & e & w2 & Hsave & Htv & Hpv)]];
    eexists _, _; (split; [exact Hget|]); (split; [exact Hpv|]).
  - pose proof (save_transcript_nothing U E video fetched RAW_DIR CLEAN_DIR w1 Ht) as Hno.
    split; [|split].
    + split; [intros [= H _]; lia|]. intros [_ [w2 H]]. congruence.
    + split; [intros _|reflexivity]. right. left. now exists w1.
    + intros rest. cbn [process_videos]. unfold bind. now rewrite Hpv.
  - split; [|split].
    + split; [intros _|reflexivity]. split; [now destruct fetched|now exists w2].
    + split; [intros [= _ H]; lia|].
      intros [->|[[w3 H]|(e & w3 & H)]]; [discriminate|congruence|congruence].
    + intros rest. cbn [process_videos]. unfold bind. now rewrite Hpv.
  - split; [|split].
    + split; [intros [= H _]; lia|]. intros [_ [w3 H]]. congruence.
    + split; [intros _|reflexivity]. right. right. now exists e, w2.
    + intros rest. cbn [process_videos]. unfold bind. now rewrite Hpv.
Qed.

(** C9: each round of the loop ends and adds one to exactly one of the two
    counters; so the loop over a list of videos ends with counters that
    have grown, together, by the number of videos; and when the lister
    returns its list, [main] ends with [successful + failed] equal to the
    number of videos listed (when the lister raises or does not end,
    so does [main]). *)
Theorem counters_sum_to_videos (total i : nat) (videos : list VideoDescriptor)
  (successful failed : nat) (w : World) :
  (forall video,
     exists c' w',
       process_video U E total i video (successful, failed) w = (Return c', w') /\
       (c' = (S successful, failed) \/ c' = (successful, S failed))) /\
  (exists s' f' w',
     process_videos U E total i videos (successful, failed) w = (Return (s', f'), w') /\
     (s' + f' = successful + failed + length videos)%nat) /\
  (forall fuel PLAYLIST_ID YOUTUBE_API_KEY,
     match get_playlist_videos E fuel PLAYLIST_ID YOUTUBE_API_KEY
             (printed (py "Fetching videos from playlist: " ++ PLAYLIST_ID) w) with
     | (Return listed, _) =>
         exists s' f' w',
           main U E fuel PLAYLIST_ID YOUTUBE_API_KEY w = (Return (s', f'), w') /\
           (s' + f' = length listed)%nat
     | (Raise e, w1) => main U E fuel PLAYLIST_ID YOUTUBE_API_KEY w = (Raise e, w1)
     | (Diverge, w1) => main U E fuel PLAYLIST_ID YOUTUBE_API_KEY w = (Diverge, w1)
     end).
Proof.
  split; [|split].
  - intros video.
    destruct (process_video_cases total i video successful failed w)
      as (fetched & w1 & _ & [(_ & _ & Hpv)|[(_ & w2 & _ & _ & Hpv)|(_ & e & w2 & _ & _ & Hpv)]]);
      eexists _, _; (split; [exact Hpv|]); auto.
  - destruct (process_videos_run total videos i successful failed w)
      as (s' & f' & w' & Hrun & Hsum & _).
    now exists s', f', w'.
  - intros fuel pid key. unfold main, bind. cbn [print fst snd].
    change {| files := files w;
              stdout := stdout w ++ [py "Fetching videos from playlist: " ++ pid];
              requests := requests w; slept := slept w |}
      with (printed (py "Fetching videos from playlist: " ++ pid) w).
    destruct (get_playlist_videos E fuel pid key _) as [[listed|e|] w1];
      [|reflexivity|reflexivity].
    match goal with |- context [process_videos U E ?n 0 listed (0, 0)%nat ?w2] =>
      destruct (process_videos_run n listed 0 0 0 w2) as (s' & f' & w' & Hrun & Hsum & _)
    end.
    rewrite Hrun. eexists s', f', _. split; [reflexivity | lia].
Qed.

End Orchestrator.

(** ** Further properties *)

(** Apart from empty brackets, the pattern deletes what the words
    "every square-bracket-delimited substring" say. *)
Lemma has_empty_brackets_suffix (w rest : pystr) :
  has_empty_brackets (w ++ rest) = false -> has_empty_brackets rest = false.
Proof.
  induction w as [|c w IH]; [trivial|]. intros H. apply IH.
  simpl in H. destruct (w ++ rest); [reflexivity|].
  now apply orb_false_elim in H as [_ H].
Qed.

Theorem sub_marker_as_worded (s : pystr) :
  has_empty_brackets s = false -> sub_marker s = SpecWords.remove_bracketed s.
Proof.
  induction s as [s IH] using pystr_length_ind. intros He.
  destruct s as [|c t]; [reflexivity|].
  assert (Ht : has_empty_brackets t = false)
    by (apply (has_empty_brackets_suffix [c] t He)).
  rewrite sub_marker_cons, remove_bracketed_cons.
  destruct (c =? LBRACKET) eqn:Hc.
  - destruct t as [|d t']; [reflexivity|].
    assert (Hd : (d =? RBRACKET) = false).
    { simpl in He. rewrite Hc in He. simpl in He.
      now apply orb_false_elim in He as [He _]. }
    cbn [match_marker]. rewrite Hc, Hd. cbn [andb negb skip_to_close]. rewrite Hd.
    destruct (skip_to_close t') as [rest|] eqn:Hs.
    + apply skip_to_close_Some in Hs as (w & Hw & ->).
      apply IH.
      * simpl. rewrite length_app. simpl. lia.
      * apply (has_empty_brackets_suffix (d :: w ++ [RBRACKET]) rest).
        simpl in Ht |- *. now rewrite <- app_assoc.
    + f_equal. apply IH; [simpl; lia | assumption].
  - assert (Hm : match_marker (c :: t) = None).
    { destruct t as [|d t']; [reflexivity|]. simpl. now rewrite Hc. }
    rewrite Hm. f_equal. apply IH; [simpl; lia | assumption].
Qed.

Lemma sub_marker_as_worded_witness :
  sub_marker (py "a [Music] b [x[y] c") = SpecWords.remove_bracketed (py "a [Music] b [x[y] c").
Proof. apply sub_marker_as_worded. reflexivity. Defined.

(** The sort of the lister: sorted, the same descriptors, and stable. *)
Theorem sort_by_position_spec (l : list VideoDescriptor) (k : Z) :
  Sorted by_position (sort_by_position l) /\
  sort_by_position l ≡ₚ l /\
  filter (fun v => v_position v = k) (sort_by_position l)
  = filter (fun v => v_position v = k) l.
Proof.
  split; [apply sort_by_position_sorted|].
  split; [apply sort_by_position_perm | apply sort_by_position_stable].
Qed.

(** The playlist id is cut at the first ampersand. *)
Theorem clean_playlist_id_spec (playlist_id : pystr) :
  (AMPERSAND ∉ clean_playlist_id playlist_id) /\
  (exists rest, playlist_id = clean_playlist_id playlist_id ++ rest) /\
  clean_playlist_id (py "PL123&index=2") = py "PL123".
Proof.
  unfold clean_playlist_id, contains.
  assert (Hhead : forall s, (AMPERSAND ∉ split_head AMPERSAND s) /\
                            exists rest, s = split_head AMPERSAND s ++ rest).
  { induction s as [|c s [IH1 [rest IH2]]]; simpl.
    - split; [apply not_elem_of_nil | now exists []].
    - destruct (c =? AMPERSAND) eqn:Hc.
      + split; [apply not_elem_of_nil | now exists (c :: s)].
      + apply N.eqb_neq in Hc. split.
        * rewrite not_elem_of_cons. split; [congruence | assumption].
        * exists rest. simpl. now f_equal. }
  split; [|split; [|reflexivity]].
  - destruct (existsb (N.eqb AMPERSAND) playlist_id) eqn:Hx; [apply Hhead|].
    intros Hin. apply list_elem_of_In in Hin.
    assert (Ht : existsb (N.eqb AMPERSAND) playlist_id = true).
    { apply existsb_exists. exists AMPERSAND. split; [assumption | apply N.eqb_refl]. }
    congruence.
  - destruct (existsb (N.eqb AMPERSAND) playlist_id); [apply Hhead|].
    exists []. now rewrite app_nil_r.
Qed.

Section ListerFailures.

Variable E : Env.

Lemma fetch_pages_raises (key pid : pystr) (n : nat) (log : list api_call)
  (token : option pystr) (e : exn) :
  raises_after E key pid n log token e ->
  forall (fuel : nat) (videos : list VideoDescriptor) (w : World),
    requests w = log -> (n < fuel)%nat ->
    exists w',
      fetch_pages E fuel key pid token videos w = (Raise e, w') /\
      files w' = files w /\ slept w' = slept w.
Proof.
  induction 1 as [log token e He|n log token page e Hpage Hmore _ IH];
    intros fuel videos w Hlog Hfuel;
    (destruct fuel as [|fuel]; [lia|]); cbn [fetch_pages]; unfold bind.
  - unfold api_playlistItems_list. rewrite Hlog, He. eexists. now repeat split.
  - unfold api_playlistItems_list. rewrite Hlog, Hpage, Hmore.
    destruct (IH fuel (videos ++ map descriptor_of_item (items page))
                {| files := files w; stdout := stdout w;
                   requests := log ++ [PlaylistItemsList key pid token];
                   slept := slept w |} eq_refl ltac:(lia)) as (w' & Hrun & Hf & Ho).
    exists w'. now rewrite Hrun.
Qed.

(** A failure of the listing is fatal: when the client cannot be built, or
    the playlist API raises at some page, the lister raises that exception
    and so does [main], with no file written and no video processed. *)
Theorem listing_failure_is_fatal (U : UnicodeData) (fuel n : nat)
  (playlist_id api_key : pystr) (e : exn) (w : World) :
  (build E api_key = Some e \/
   (build E api_key = None /\ (n < fuel)%nat /\
    raises_after E api_key (clean_playlist_id playlist_id) n (requests w) None e)) ->
  exists w',
    main U E fuel playlist_id api_key w = (Raise e, w') /\
    files w' = files w /\ slept w' = slept w.
Proof.
  intros H. unfold main, get_playlist_videos, bind, api_build. cbn [print].
  destruct H as [Hb|(Hb & Hfuel & Hr)]; rewrite Hb.
  - eexists. split; [reflexivity|]. now split.
  - unfold ret.
    match goal with |- context [fetch_pages E fuel ?k ?p None [] ?w0] =>
      destruct (fetch_pages_raises k p n _ None e Hr fuel [] w0 eq_refl Hfuel)
        as (w' & Hrun & Hf & Hs)
    end.
    rewrite Hrun. exists w'. split; [reflexivity|]. now split.
Qed.

(** While the API keeps handing out continuation tokens the loop of the
    lister goes on: no number of rounds is enough. *)
Theorem endless_pagination (fuel : nat) (playlist_id api_key : pystr) (w : World) :
  build E api_key = None ->
  (forall log token,
     exists page,
       playlistItems_list E log api_key (clean_playlist_id playlist_id) token
       = inr page /\
       token_truthy (nextPageToken page) = true) ->
  fst (get_playlist_videos E fuel playlist_id api_key w) = Diverge.
Proof.
  intros Hb Hmore. unfold get_playlist_videos, bind, api_build. cbn [print].
  rewrite Hb. unfold ret.
  match goal with |- context [fetch_pages E fuel ?k ?p None ?acc ?w0] =>
    generalize w0; generalize acc; generalize (@None pystr)
  end.
  induction fuel as [|fuel IH]; intros token acc w0; [reflexivity|].
  cbn [fetch_pages]. unfold bind, api_playlistItems_list.
  destruct (Hmore (requests w0) token) as (page & -> & ->).
  specialize (IH (nextPageToken page) (acc ++ map descriptor_of_item (items page))
                {| files := files w0; stdout := stdout w0;
                   requests := requests w0
                     ++ [PlaylistItemsList api_key (clean_playlist_id playlist_id) token];
                   slept := slept w0 |}).
  now destruct (fetch_pages E fuel _ _ _ _ _) as [[?|?|] ?].
Qed.

End ListerFailures.

Lemma listing_failure_is_fatal_witness :
  exists w',
    main ascii_table broken_env 5 (py "PL123") (py "KEY") empty_world
    = (Raise (Exception (py "HttpError 503")), w') /\
    files w' = ∅ /\ slept w' = 0%nat.
Proof.
  apply (listing_failure_is_fatal broken_env ascii_table 5 1 (py "PL123") (py "KEY")
           (Exception (py "HttpError 503")) empty_world).
  right. split; [reflexivity|]. split; [lia|].
  apply raises_later with (page := demo_page1); [reflexivity | reflexivity|].
  apply raises_now. reflexivity.
Defined.

Lemma endless_pagination_witness :
  fst (get_playlist_videos endless_env 1000 (py "PL123") (py "KEY") empty_world)
  = Diverge.
Proof.
  apply (endless_pagination endless_env 1000 (py "PL123") (py "KEY") empty_world).
  - reflexivity.
  - intros log token. exists demo_page1. split; reflexivity.
Defined.

(** The script on the small playlist: the second of three videos has no
    transcript; two are saved, one fails, and there are two raw and two
    clean files on disk. Three seconds are slept. *)
Theorem main_on_small_playlist :
  exists w',
    main ascii_table demo_env 2 (py "PL123&index=2") (py "KEY") empty_world
    = (Return (2, 1)%nat, w') /\
    dom (files w') =
      {[ py "backend/transcripts/raw/001_Alpha_one_v0.json";
         py "backend/transcripts/clean/001_Alpha_one_v0.txt";
         py "backend/transcripts/raw/003_Gamma_v2.json";
         py "backend/transcripts/clean/003_Gamma_v2.txt" ]} /\
    slept w' = 3%nat.
Proof.
  eexists. split; [vm_compute; reflexivity|].
  split; [|reflexivity]. by_evaluation.
Qed.

(** After each video, whatever became of it, the loop sleeps one second. *)
Theorem one_second_per_video (U : UnicodeData) (E : Env) (total i : nat)
  (videos : list VideoDescriptor) (successful failed : nat) (w : World) :
  exists c' w',
    process_videos U E total i videos (successful, failed) w = (Return c', w') /\
    slept w' = (slept w + length videos)%nat.
Proof.
  destruct (process_videos_run U E total videos i successful failed w)
    as (s' & f' & w' & Hrun & _ & Hslept).
  now exists (s', f'), w'.
Qed.

(** ** The writer when the disk refuses *)

(** When the raw file cannot be opened nothing is written; when only the
    clean file cannot, the raw file stays behind without its clean twin.
    Either way the exception of [open] goes to the caller. *)
Theorem save_transcript_failure_modes (U : UnicodeData) (E : Env)
  (v : VideoDescriptor) (e : TranscriptEntry) (es : Transcript)
  (raw_dir clean_dir : pystr) (w : World) (x : exn) :
  let raw := raw_path U v raw_dir in
  let clean := clean_path U v clean_dir in
  (open_w E (files w) raw = Some x ->
   save_transcript U E v (Some (e :: es)) raw_dir clean_dir w = (Raise x, w)) /\
  (open_w E (files w) raw = None ->
   open_w E (<[raw := json_dump E (e :: es)]> (files w)) clean = Some x ->
   exists w',
     save_transcript U E v (Some (e :: es)) raw_dir clean_dir w = (Raise x, w') /\
     files w' !! raw = Some (json_dump E (e :: es)) /\
     files w' !! clean = files w !! clean).
Proof.
  intros raw clean. split.
  - intros Hraw. unfold save_transcript, bind.
    now rewrite (write_file_fails E raw _ w x).
  - intros Hraw Hclean. unfold save_transcript, bind.
    rewrite (write_file_ok E raw) by assumption.
    rewrite (write_file_fails E clean _ _ x) by assumption.
    eexists. split; [reflexivity|]. cbn [files]. split.
    + apply lookup_insert_eq.
    + apply lookup_insert_ne, raw_clean_distinct.
Qed.

Lemma save_transcript_failure_modes_witness :
  save_transcript ascii_table locked_env demo_video (Some demo_transcript)
    RAW_DIR CLEAN_DIR empty_world
  = (Raise (Exception (py "PermissionError")), empty_world) /\
  exists w',
    save_transcript ascii_table no_text_env demo_video (Some demo_transcript)
      RAW_DIR CLEAN_DIR empty_world
    = (Raise (Exception (py "PermissionError")), w') /\
    files w' !! py "backend/transcripts/raw/001_Alpha_one_v0.json"
    = Some (py "[[Music], namaste]") /\
    files w' !! py "backend/transcripts/clean/001_Alpha_one_v0.txt" = None.
Proof.
  split.
  - apply (save_transcript_failure_modes ascii_table locked_env demo_video
             (entry (py "[Music]")) [entry (py "namaste")] RAW_DIR CLEAN_DIR
             empty_world (Exception (py "PermissionError"))).
    reflexivity.
  - apply (save_transcript_failure_modes ascii_table no_text_env demo_video
             (entry (py "[Music]")) [entry (py "namaste")] RAW_DIR CLEAN_DIR
             empty_world (Exception (py "PermissionError"))); reflexivity.
Defined.

(** ** The cleaner deletes and does nothing else *)

Lemma lstrip_suffix (s : pystr) :
  exists p, s = p ++ lstrip s /\ Forall (fun c => isspace c = true) p.
Proof.
  induction s as [|c s (p & Hs & Hp)]; simpl; [now exists []|].
  destruct (isspace c) eqn:Hc; [|now exists []].
  exists (c :: p). split; [simpl; now f_equal | now constructor].
Qed.

(** Trimming takes whitespace off the two ends and nothing else. *)
Lemma strip_infix (s : pystr) :
  exists p q,
    s = p ++ strip s ++ q /\
    Forall (fun c => isspace c = true) p /\ Forall (fun c => isspace c = true) q.
Proof.
  destruct (lstrip_suffix s) as (p & Hs & Hp).
  destruct (lstrip_suffix (reverse (lstrip s))) as (q & Hr & Hq).
  exists p, (reverse q). split; [|split; [assumption | now apply Forall_reverse]].
  unfold strip, rstrip. rewrite Hs at 1. f_equal.
  apply (f_equal reverse) in Hr. rewrite reverse_involutive in Hr.
  now rewrite reverse_app in Hr.
Qed.

Lemma sub_marker_sublist (s : pystr) : sub_marker s `sublist_of` s.
Proof.
  induction s as [s IH] using pystr_length_ind.
  destruct s as [|c t]; [constructor|].
  rewrite sub_marker_cons. destruct (match_marker (c :: t)) as [rest|] eqn:H.
  - pose proof (match_marker_shorter _ _ H) as Hlt.
    apply match_marker_Some in H as (w & _ & ->).
    change (LBRACKET :: w ++ RBRACKET :: rest)
      with ((LBRACKET :: w) ++ [RBRACKET] ++ rest).
    rewrite app_assoc. apply sublist_inserts_l. now apply IH.
  - apply sublist_skip, IH. simpl. lia.
Qed.

(** The cleaned text is the joined text fields with characters deleted:
    nothing is added, nothing is moved; and the timing fields play no
    part in it. *)
Theorem clean_transcript_only_deletes (t t' : Transcript) :
  clean_transcript (Some t) `sublist_of` join [NEWLINE] (map text t) /\
  (length (clean_transcript (Some t)) <= length (join [NEWLINE] (map text t)))%nat /\
  (map text t' = map text t ->
   clean_transcript (Some t') = clean_transcript (Some t)).
Proof.
  assert (Hsub : clean_transcript (Some t) `sublist_of` join [NEWLINE] (map text t)).
  { destruct t as [|e es]; [constructor|]. rewrite clean_transcript_unfold.
    etransitivity; [apply sub_marker_sublist|].
    destruct (strip_infix (join [NEWLINE] (map text (e :: es)))) as (p & q & Hs & _).
    rewrite Hs at 2. apply sublist_inserts_l, sublist_inserts_r. reflexivity. }
  split; [assumption|]. split; [now apply sublist_length|].
  intros Ht. destruct t as [|e es], t' as [|e' es']; try discriminate; [reflexivity|].
  rewrite !clean_transcript_unfold. now rewrite Ht.
Qed.

Lemma clean_transcript_only_deletes_witness :
  clean_transcript
    (Some [{| text := py "[Music]"; start := 3%Q; duration := 2%Q |};
           {| text := py "namaste"; start := 5%Q; duration := 4%Q |}])
  = clean_transcript (Some demo_transcript).
Proof.
  apply (clean_transcript_only_deletes demo_transcript
           [{| text := py "[Music]"; start := 3%Q; duration := 2%Q |};
            {| text := py "namaste"; start := 5%Q; duration := 4%Q |}]).
  reflexivity.
Defined.

(** ** Cleaning what has been cleaned *)

Lemma marker_at_app (s q : pystr) :
  marker_at s = true -> marker_at (s ++ q) = true.
Proof.
  intros (w & rest & Hw & ->)%marker_at_spec. apply marker_at_spec.
  exists w, (rest ++ q). split; [assumption|].
  simpl. now rewrite <- app_assoc.
Qed.

Lemma has_marker_prefix (s q : pystr) :
  has_marker (s ++ q) = false -> has_marker s = false.
Proof.
  induction s as [|c s IH]; [reflexivity|].
  simpl app. cbn [has_marker]. intros [H1 H2]%orb_false_elim.
  rewrite IH by assumption. rewrite orb_false_r.
  destruct (marker_at (c :: s)) eqn:E; [|reflexivity].
  apply (marker_at_app _ q) in E. simpl app in E. congruence.
Qed.

Lemma has_marker_suffix (p s : pystr) :
  has_marker (p ++ s) = false -> has_marker s = false.
Proof.
  induction p as [|c p IH]; [trivial|].
  simpl app. cbn [has_marker]. intros [_ H]%orb_false_elim. now apply IH.
Qed.

Lemma strip_no_marker (s : pystr) :
  has_marker s = false -> has_marker (strip s) = false.
Proof.
  intros H. destruct (strip_infix s) as (p & q & Hs & _). rewrite Hs in H.
  now apply has_marker_suffix, has_marker_prefix in H.
Qed.

(** The cleaner is not idempotent, but nearly: given its own output as the
    text of a transcript it only trims it, and given that, it changes
    nothing any more. *)
Theorem clean_transcript_second_pass (t : Transcript) (st d : Q) :
  let once := clean_transcript (Some t) in
  let twice := clean_transcript (Some [{| text := once; start := st; duration := d |}]) in
  twice = strip once /\
  clean_transcript (Some [{| text := twice; start := st; duration := d |}]) = twice.
Proof.
  intros once twice.
  assert (Hclean : has_marker once = false).
  { unfold once. destruct t as [|e es]; [reflexivity|].
    rewrite clean_transcript_unfold. apply sub_marker_clean. }
  assert (Htwice : twice = strip once).
  { unfold twice. rewrite clean_transcript_unfold. cbn [map join text].
    now apply sub_marker_no_marker, strip_no_marker. }
  split; [assumption|].
  rewrite clean_transcript_unfold. cbn [map join text]. rewrite Htwice, strip_twice.
  now apply sub_marker_no_marker, strip_no_marker.
Qed.

(** ** What a safe title is made of *)

Lemma kept_char_ascii (U : UnicodeData) (c : N) :
  c < 128 ->
  kept_char U c = ascii_alnum c || (c =? UNDERSCORE) || isspace c || (c =? HYPHEN).
Proof. intros Hc. unfold kept_char. now rewrite (isalnum_ascii U c Hc). Qed.

Lemma replace_trimmed (s : pystr) :
  trimmed s = true -> trimmed (replace SPACE UNDERSCORE s) = true.
Proof.
  destruct s as [|c l]; [reflexivity|]. unfold trimmed at 1.
  destruct (last (c :: l)) as [d|] eqn:Hl; [|now apply last_None in Hl].
  intros [Hc Hd]%andb_prop. apply negb_true_iff in Hc, Hd.
  apply last_Some in Hl as [l' Hl].
  assert (Hkeep : forall x, isspace x = false ->
            isspace (if x =? SPACE then UNDERSCORE else x) = false).
  { intros x Hx. destruct (x =? SPACE) eqn:E; [reflexivity | assumption]. }
  unfold replace. simpl map.
  apply trimmed_intro with (d := if d =? SPACE then UNDERSCORE else d); auto.
  change (last (map (fun x => if x =? SPACE then UNDERSCORE else x) (c :: l))
          = Some (if d =? SPACE then UNDERSCORE else d)).
  rewrite Hl, map_app. cbn [map]. apply last_snoc.
Qed.

(** The safe title cannot break out of its place in the file name: it has
    no whitespace at either end and no space, slash, backslash, dot or NUL
    anywhere; its ASCII characters are letters, digits, underscores,
    hyphens and the control characters that count as whitespace. *)
Theorem safe_title_is_safe (U : UnicodeData) (title : pystr) :
  trimmed (safe_title U title) = true /\
  Forall (fun c => c <> SPACE /\ c <> SLASH /\ c <> 92 /\ c <> 46 /\ c <> 0)
    (safe_title U title) /\
  Forall (fun c =>
            c < 128 ->
            ascii_alnum c || (c =? UNDERSCORE) || (c =? HYPHEN)
            || ((9 <=? c) && (c <=? 13)) || ((28 <=? c) && (c <=? 31)) = true)
    (safe_title U title).
Proof.
  split; [apply replace_trimmed, strip_is_trimmed|].
  assert (Hascii : forall c, c ∈ safe_title U title -> c < 128 ->
            ascii_alnum c || (c =? UNDERSCORE) || (c =? HYPHEN)
            || ((9 <=? c) && (c <=? 13)) || ((28 <=? c) && (c <=? 31)) = true).
  { intros c [Hsp Hk]%safe_title_chars Hc.
    rewrite (kept_char_ascii U c Hc) in Hk. apply N.eqb_neq in Hsp.
    unfold isspace in Hk. unfold SPACE in Hsp. rewrite Hsp in Hk.
    assert (H1 : (c =? 133) = false) by (apply N.eqb_neq; lia).
    assert (H2 : (c =? 160) = false) by (apply N.eqb_neq; lia).
    assert (H3 : (c =? 5760) = false) by (apply N.eqb_neq; lia).
    assert (H4 : (8192 <=? c) = false) by (apply N.leb_gt; lia).
    assert (H5 : (c =? 8232) = false) by (apply N.eqb_neq; lia).
    assert (H6 : (c =? 8233) = false) by (apply N.eqb_neq; lia).
    assert (H7 : (c =? 8239) = false) by (apply N.eqb_neq; lia).
    assert (H8 : (c =? 8287) = false) by (apply N.eqb_neq; lia).
    assert (H9 : (c =? 12288) = false) by (apply N.eqb_neq; lia).
    rewrite H1, H2, H3, H4, H5, H6, H7, H8, H9 in Hk. simpl in Hk.
    rewrite !orb_false_r in Hk.
    destruct (ascii_alnum c), (c =? UNDERSCORE), (c =? HYPHEN),
      ((9 <=? c) && (c <=? 13)), ((28 <=? c) && (c <=? 31)); simpl in *; congruence. }
  split; apply Forall_forall; intros c Hin; [|now apply Hascii].
  pose proof (safe_title_chars U title c Hin) as [Hsp _].
  split; [assumption|].
  repeat split; intros ->; specialize (Hascii _ Hin eq_refl); discriminate.
Qed.

(** ** File names and paths *)

Lemma digits_head (u : Decimal.uint) (c : N) (t : pystr) :
  digits u = c :: t -> 48 <= c <= 57.
Proof. destruct u; simpl; intros [= <- _]; lia. Qed.

(** A formatted position starts with a digit or with the sign. *)
Lemma format_03d_head (z : Z) :
  exists c t, format_03d z = c :: t /\ (c = HYPHEN \/ 48 <= c <= 57).
Proof.
  unfold format_03d. destruct (z <? 0)%Z; [eauto|].
  destruct (str_of_N (Z.abs_N z)) as [|c t] eqn:Hd.
  - exists 48, [48; 48]. split; [reflexivity | right; lia].
  - destruct (3 - length (c :: t))%nat as [|k] eqn:Hk; simpl.
    + exists c, t. split; [reflexivity|]. right. now apply (digits_head _ _ _ Hd).
    + eexists 48, _. split; [reflexivity | right; lia].
Qed.

Lemma base_filename_head (U : UnicodeData) (v : VideoDescriptor) (ext : pystr) :
  exists c t, base_filename U v ++ ext = c :: t /\ (c = HYPHEN \/ 48 <= c <= 57).
Proof.
  unfold base_filename.
  destruct (format_03d_head (v_position v)) as (c & t & -> & Hc).
  eexists c, _. split; [reflexivity | assumption].
Qed.

Lemma path_join_relative (dir name : pystr) :
  starts_with_sep name = false ->
  exists sep, (sep = [] \/ sep = [SLASH]) /\ path_join dir name = dir ++ sep ++ name.
Proof.
  intros H. unfold path_join. rewrite H.
  destruct (match dir with [] => true | _ :: _ => ends_with_sep dir end).
  - exists []. split; [now left | reflexivity].
  - exists [SLASH]. split; [now right | reflexivity].
Qed.

Lemma base_filename_relative (U : UnicodeData) (v : VideoDescriptor) (ext : pystr) :
  starts_with_sep (base_filename U v ++ ext) = false.
Proof.
  destruct (base_filename_head U v ext) as (c & t & -> & Hc).
  simpl. apply N.eqb_neq. unfold SLASH, HYPHEN in *. lia.
Qed.

(** The artifacts of a video lie under the directories given: the title
    and the position can never turn the file name into an absolute path
    that would make [join] drop the directory. *)
Theorem artifact_paths_under_directories (U : UnicodeData) (v : VideoDescriptor)
  (raw_dir clean_dir : pystr) :
  (exists sep, (sep = [] \/ sep = [SLASH]) /\
     raw_path U v raw_dir = raw_dir ++ sep ++ base_filename U v ++ py ".json") /\
  (exists sep, (sep = [] \/ sep = [SLASH]) /\
     clean_path U v clean_dir = clean_dir ++ sep ++ base_filename U v ++ py ".txt") /\
  raw_dir `prefix_of` raw_path U v raw_dir /\
  clean_dir `prefix_of` clean_path U v clean_dir.
Proof.
  destruct (path_join_relative raw_dir _ (base_filename_relative U v (py ".json")))
    as (s1 & Hs1 & H1).
  destruct (path_join_relative clean_dir _ (base_filename_relative U v (py ".txt")))
    as (s2 & Hs2 & H2).
  unfold raw_path, clean_path. rewrite H1, H2.
  split; [now exists s1|]. split; [now exists s2|].
  split; eexists; reflexivity.
Qed.

(** Reading a formatted position back. *)
Lemma read_digits_digits (u : Decimal.uint) (rest : pystr) :
  read_digits (digits u ++ UNDERSCORE :: rest) = u.
Proof. induction u; simpl; [reflexivity | now f_equal ..]. Qed.

Lemma read_digits_zeros (k : nat) (s : pystr) :
  N.of_uint (read_digits (repeat 48 k ++ s)) = N.of_uint (read_digits s).
Proof. induction k as [|k IH]; [reflexivity|]. simpl repeat. simpl app. exact IH. Qed.

Lemma read_position_format (z : Z) (rest : pystr) :
  read_position (format_03d z ++ UNDERSCORE :: rest) = z.
Proof.
  assert (Hback : forall k, N.of_uint (read_digits
            ((repeat 48 k ++ str_of_N (Z.abs_N z)) ++ UNDERSCORE :: rest)) = Z.abs_N z).
  { intros k. rewrite <- app_assoc, read_digits_zeros. unfold str_of_N.
    rewrite read_digits_digits. apply DecimalN.Unsigned.of_to. }
  unfold format_03d. destruct (z <? 0)%Z eqn:Hz.
  - apply Z.ltb_lt in Hz. simpl app. unfold read_position.
    rewrite N.eqb_refl, Hback. rewrite N2Z.inj_abs_N. lia.
  - destruct (format_03d_head z) as (c & t & Hf & Hc). unfold format_03d in Hf.
    rewrite Hz in Hf. apply Z.ltb_ge in Hz.
    specialize (Hback (3 - length (str_of_N (Z.abs_N z)))%nat).
    rewrite Hf in Hback |- *. simpl app in *. unfold read_position.
    destruct (c =? HYPHEN) eqn:E.
    + apply N.eqb_eq in E. subst c.
      exfalso. apply (f_equal head) in Hf. simpl in Hf.
      destruct (3 - length (str_of_N (Z.abs_N z)))%nat; simpl in Hf.
      * destruct (str_of_N (Z.abs_N z)) as [|d ds] eqn:Hd; [discriminate|].
        injection Hf as ->. apply digits_head in Hd. unfold HYPHEN in Hd. lia.
      * discriminate.
    + rewrite Hback, N2Z.inj_abs_N. lia.
Qed.

(** Videos at different positions never share a file: the position can
    be read back from the front of the base file name, whatever the title
    and the id are. *)
Theorem distinct_positions_distinct_files (U : UnicodeData)
  (v1 v2 : VideoDescriptor) (raw_dir clean_dir : pystr) :
  v_position v1 <> v_position v2 ->
  base_filename U v1 <> base_filename U v2 /\
  raw_path U v1 raw_dir <> raw_path U v2 raw_dir /\
  clean_path U v1 clean_dir <> clean_path U v2 clean_dir.
Proof.
  intros Hpos.
  assert (Hbase : base_filename U v1 <> base_filename U v2).
  { intros H. apply Hpos. apply (f_equal read_position) in H.
    unfold base_filename in H. simpl app in H.
    now rewrite !read_position_format in H. }
  assert (Hjoin : forall dir ext,
            path_join dir (base_filename U v1 ++ ext)
            <> path_join dir (base_filename U v2 ++ ext)).
  { intros dir ext H. apply Hbase. unfold path_join in H.
    rewrite !base_filename_relative in H.
    destruct (match dir with [] => true | _ :: _ => ends_with_sep dir end);
      apply app_inv_head in H; [|injection H as H]; now apply app_inv_tail in H. }
  split; [assumption|]. split; apply Hjoin.
Qed.

Lemma distinct_positions_distinct_files_witness :
  base_filename ascii_table
    {| v_id := py "v0"; v_title := py "Alpha_one"; v_position := 1 |}
  <> base_filename ascii_table
       {| v_id := py "v0"; v_title := py "Alpha_one"; v_position := 2 |} /\
  raw_path ascii_table
    {| v_id := py "v0"; v_title := py "Alpha_one"; v_position := 1 |} RAW_DIR
  <> raw_path ascii_table
       {| v_id := py "v0"; v_title := py "Alpha_one"; v_position := 2 |} RAW_DIR.
Proof.
  destruct (distinct_positions_distinct_files ascii_table
              {| v_id := py "v0"; v_title := py "Alpha_one"; v_position := 1 |}
              {| v_id := py "v0"; v_title := py "Alpha_one"; v_position := 2 |}
              RAW_DIR CLEAN_DIR) as (H1 & H2 & _).
  - simpl. lia.
  - split; assumption.
Defined.

(** ** The lister: order of arrival and requests *)

Lemma sort_by_position_sorted_id (l : list VideoDescriptor) :
  Sorted by_position l -> sort_by_position l = l.
Proof.
  induction 1 as [|x l Hl IH Hx]; [reflexivity|].
  simpl. rewrite IH. destruct Hx as [|y l' Hxy]; [reflexivity|].
  simpl. unfold by_position in Hxy.
  now destruct (Z.leb_spec (v_position x) (v_position y)); [|lia].
Qed.

(** The loop of the lister with its log: one request a page, each for the
    playlist and with the key it was given. *)
Lemma fetch_pages_log (E : Env) (key pid : pystr) (log : list api_call)
  (token : option pystr) (pages : list (list PlaylistItem)) :
  serves E key pid log token pages ->
  forall (fuel : nat) (videos : list VideoDescriptor) (w : World),
    requests w = log ->
    (length pages <= fuel)%nat ->
    exists reqs,
      fetch_pages E fuel key pid token videos w
      = (Return (videos ++ map descriptor_of_item (concat pages)),
         {| files := files w; stdout := stdout w;
            requests := requests w ++ reqs; slept := slept w |}) /\
      length reqs = length pages /\
      Forall (page_request key pid) reqs.
Proof.
  induction 1 as [log token page Hpage Hlast|log token page rest Hpage Hmore _ IH];
    intros fuel videos w Hlog Hfuel;
    (destruct fuel as [|fuel]; [simpl in Hfuel; lia|]);
    cbn [fetch_pages]; unfold bind;
    rewrite (api_playlistItems_list_run E key pid token page) by (now rewrite Hlog).
  - rewrite Hlast. exists [PlaylistItemsList key pid token].
    unfold ret. simpl concat. rewrite app_nil_r.
    split; [reflexivity|]. split; [reflexivity|].
    repeat constructor. now exists token.
  - rewrite Hmore.
    destruct (IH fuel (videos ++ map descriptor_of_item (items page))
                {| files := files w; stdout := stdout w;
                   requests := requests w ++ [PlaylistItemsList key pid token];
                   slept := slept w |}) as (reqs & Hrun & Hlen & Hreqs).
    + cbn [requests]. now rewrite Hlog.
    + simpl in Hfuel. lia.
    + exists (PlaylistItemsList key pid token :: reqs).
      rewrite Hrun. cbn [files stdout requests slept]. simpl concat.
      rewrite map_app, <- !app_assoc. simpl app.
      split; [reflexivity|]. split; [simpl; now f_equal|].
      constructor; [now exists token | assumption].
Qed.

(** When the pages bring the items in ascending order, the lister returns
    the descriptors in the order of arrival: the sort moves nothing. *)
Theorem get_playlist_videos_keeps_order (E : Env) (fuel : nat)
  (playlist_id api_key : pystr) (pages : list (list PlaylistItem)) (w : World) :
  build E api_key = None ->
  serves E api_key (clean_playlist_id playlist_id) (requests w) None pages ->
  (length pages <= fuel)%nat ->
  Sorted (fun a b => (snippet_position a <= snippet_position b)%Z) (concat pages) ->
  exists w',
    get_playlist_videos E fuel playlist_id api_key w
    = (Return (map descriptor_of_item (concat pages)), w').
Proof.
  intros Hbuild Hserves Hfuel Hsorted.
  unfold get_playlist_videos, bind, print, api_build. rewrite Hbuild. unfold ret.
  match goal with |- context [fetch_pages E fuel ?k ?p None [] ?w0] =>
    destruct (fetch_pages_log E k p _ None pages Hserves fuel [] w0 eq_refl Hfuel)
      as (reqs & Hrun & _)
  end.
  rewrite Hrun. simpl app. eexists. f_equal. f_equal.
  apply sort_by_position_sorted_id.
  apply (Sorted_fmap descriptor_of_item _ by_position) in Hsorted; [assumption|].
  intros a b Hab. unfold by_position. simpl. lia.
Qed.

Lemma get_playlist_videos_keeps_order_witness :
  exists w',
    get_playlist_videos ordered_env 2 (py "PL123") (py "KEY") empty_world
    = (Return (map descriptor_of_item
                 [item "v0" "Alpha_one" 0; item "v1" "Beta: two" 1; item "v2" "Gamma" 2]),
       w').
Proof.
  apply (get_playlist_videos_keeps_order ordered_env 2 (py "PL123") (py "KEY")
           [items ordered_page1; items demo_page2] empty_world).
  - reflexivity.
  - apply serves_more with (page := ordered_page1); [reflexivity | reflexivity|].
    apply serves_last with (page := demo_page2); reflexivity.
  - simpl. lia.
  - simpl. repeat constructor; simpl; lia.
Defined.

(** The lister sends one request a page, each for the cleaned playlist id;
    it prints one line, and it touches neither the files nor the clock. *)
Theorem get_playlist_videos_requests (E : Env) (fuel : nat)
  (playlist_id api_key : pystr) (pages : list (list PlaylistItem)) (w : World) :
  build E api_key = None ->
  serves E api_key (clean_playlist_id playlist_id) (requests w) None pages ->
  (length pages <= fuel)%nat ->
  exists videos w' reqs,
    get_playlist_videos E fuel playlist_id api_key w = (Return videos, w') /\
    requests w' = requests w ++ reqs /\
    length reqs = length pages /\
    Forall (page_request api_key (clean_playlist_id playlist_id)) reqs /\
    stdout w' =
      stdout w ++ [py "Using cleaned playlist ID: " ++ clean_playlist_id playlist_id] /\
    files w' = files w /\ slept w' = slept w.
Proof.
  intros Hbuild Hserves Hfuel.
  unfold get_playlist_videos, bind, print, api_build. rewrite Hbuild. unfold ret.
  match goal with |- context [fetch_pages E fuel ?k ?p None [] ?w0] =>
    destruct (fetch_pages_log E k p _ None pages Hserves fuel [] w0 eq_refl Hfuel)
      as (reqs & Hrun & Hlen & Hreqs)
  end.
  rewrite Hrun. eexists _, _, reqs. split; [reflexivity|].
  cbn [files stdout requests slept]. now repeat split.
Qed.

Lemma get_playlist_videos_requests_witness :
  exists videos w',
    get_playlist_videos demo_env 2 (py "PL123&index=2") (py "KEY") empty_world
    = (Return videos, w') /\
    requests w' =
      [PlaylistItemsList (py "KEY") (py "PL123") None;
       PlaylistItemsList (py "KEY") (py "PL123") (Some (py "T2"))].
Proof.
  destruct (get_playlist_videos_requests demo_env 2 (py "PL123&index=2") (py "KEY")
              [items demo_page1; items demo_page2] empty_world)
    as (videos & w' & reqs & Hrun & Hreq & _).
  - reflexivity.
  - apply serves_more with (page := demo_page1); [reflexivity | reflexivity|].
    apply serves_last with (page := demo_page2); reflexivity.
  - simpl. lia.
  - exists videos, w'. split; [exact Hrun|].
    vm_compute in Hrun. injection Hrun as _ <-. reflexivity.
Defined.

(** ** What a run does to the disk, the console and the APIs *)

Lemma marked_snoc (mark : N) (lines : list pystr) (line : pystr) :
  marked mark (lines ++ [line])
  = (marked mark lines + if decide (head line = Some mark) then 1 else 0)%nat.
Proof.
  unfold marked.
  rewrite (filter_app (fun l => head l = Some mark)), length_app.
  rewrite (filter_cons (fun l => head l = Some mark)).
  now destruct (decide (head line = Some mark)).
Qed.

Section Effects.

Variable U : UnicodeData.
Variable E : Env.

(** The fetcher, with all it does to the world. *)
Lemma get_transcript_trace (video_id : pystr) (w : World) :
  exists fetched reqs out,
    get_transcript E video_id w
    = (Return fetched,
       {| files := files w; stdout := stdout w ++ out;
          requests := requests w ++ reqs; slept := slept w |}) /\
    (1 <= length reqs <= 3)%nat /\
    Forall (transcript_request video_id) reqs /\
    (out = [] \/ exists e, out = [could_not_get video_id e]).
Proof.
  assert (Hreq : forall l, transcript_request video_id (GetTranscript video_id l))
    by (intros l; now exists l).
  unfold get_transcript, try_except, bind, ret, print, api_get_transcript.
  destruct (YouTubeTranscriptApi_get_transcript E (requests w) video_id _).
  2:{ eexists _, [_], []. rewrite app_nil_r. split; [reflexivity|].
      split; [simpl; lia|]. split; [repeat constructor; apply Hreq | now left]. }
  cbn [requests files stdout slept].
  destruct (YouTubeTranscriptApi_get_transcript E _ video_id (Some [LANG_HI_IN])).
  2:{ eexists _, [_; _], []. rewrite app_nil_r, <- app_assoc. split; [reflexivity|].
      split; [simpl; lia|]. split; [repeat constructor; apply Hreq | now left]. }
  cbn [requests files stdout slept].
  destruct (YouTubeTranscriptApi_get_transcript E _ video_id None) as [e3|t3].
  - eexists _, [_; _; _], [_]. rewrite <- !app_assoc. split; [reflexivity|].
    split; [simpl; lia|]. split; [repeat constructor; apply Hreq|].
    right. now exists e3.
  - eexists _, [_; _; _], []. rewrite app_nil_r, <- !app_assoc. split; [reflexivity|].
    split; [simpl; lia|]. split; [repeat constructor; apply Hreq | now left].
Qed.

(** The writer changes no file but its two, and removes none. *)
Lemma save_transcript_frame (v : VideoDescriptor) (t : option Transcript)
  (raw_dir clean_dir : pystr) (w w' : World) (r : outcome bool) :
  save_transcript U E v t raw_dir clean_dir w = (r, w') ->
  dom (files w) ⊆ dom (files w') /\
  (forall p, p <> raw_path U v raw_dir -> p <> clean_path U v clean_dir ->
     files w' !! p = files w !! p).
Proof.
  destruct t as [[|e es]|]; cbn [save_transcript]; unfold ret;
    try (intros [= _ <-]; split; [reflexivity | trivial]).
  unfold bind, write_file.
  destruct (open_w E (files w) (raw_path U v raw_dir));
    [intros [= _ <-]; split; [reflexivity | trivial]|].
  cbn [files]. destruct (open_w E _ (clean_path U v clean_dir));
    intros [= _ <-]; cbn [files]; split.
  - rewrite dom_insert. apply union_subseteq_r.
  - intros p H1 _. now rewrite lookup_insert_ne by congruence.
  - rewrite !dom_insert. etransitivity; apply union_subseteq_r.
  - intros p H1 H2. now rewrite !lookup_insert_ne by congruence.
Qed.

(** When the writer returns [True] both files hold what they should. *)
Lemma save_transcript_true (v : VideoDescriptor) (t : option Transcript)
  (raw_dir clean_dir : pystr) (w w' : World) :
  save_transcript U E v t raw_dir clean_dir w = (Return true, w') ->
  exists l,
    t = Some l /\ l <> [] /\
    files w' !! raw_path U v raw_dir = Some (json_dump E l) /\
    files w' !! clean_path U v clean_dir = Some (clean_transcript t).
Proof.
  destruct t as [[|e es]|]; cbn [save_transcript]; unfold ret; try discriminate.
  unfold bind, write_file.
  destruct (open_w E (files w) (raw_path U v raw_dir)); [discriminate|].
  cbn [files]. destruct (open_w E _ (clean_path U v clean_dir)); [discriminate|].
  intros [= <-]. exists (e :: es). cbn [files].
  repeat split; [discriminate | | apply lookup_insert_eq].
  rewrite lookup_insert_ne by (intros H; symmetry in H; revert H; apply raw_clean_distinct).
  apply lookup_insert_eq.
Qed.

End Effects.

Lemma marked_app (mark : N) (l1 l2 : list pystr) :
  marked mark (l1 ++ l2) = (marked mark l1 + marked mark l2)%nat.
Proof.
  unfold marked.
  now rewrite (filter_app (fun l => head l = Some mark)), length_app.
Qed.

Lemma marked_none (mark : N) (lines : list pystr) :
  Forall (fun line => head line <> Some mark) lines -> marked mark lines = 0%nat.
Proof.
  induction 1 as [|line lines Hline _ IH]; [reflexivity|].
  unfold marked in *.
  now rewrite (filter_cons_False (fun l => head l = Some mark)).
Qed.

Lemma marked_round (mark : N) (lines out : list pystr) (first last_line : pystr) :
  head first <> Some mark ->
  Forall (fun line => head line <> Some mark) out ->
  marked mark (lines ++ first :: out ++ [last_line])
  = (marked mark lines + if decide (head last_line = Some mark) then 1 else 0)%nat.
Proof.
  intros Hfirst Hout.
  change (first :: out ++ [last_line]) with ((first :: out) ++ [last_line]).
  rewrite app_assoc, marked_snoc. f_equal.
  rewrite marked_app, (marked_none mark (first :: out)); [lia|].
  now constructor.
Qed.

Section RunEffects.

Variable U : UnicodeData.
Variable E : Env.

(** One round of the loop, with all it does to the world. *)
Lemma process_video_effects (total i : nat) (video : VideoDescriptor)
  (successful failed : nat) (w : World) :
  exists c' w' reqs out mark,
    process_video U E total i video (successful, failed) w = (Return c', w') /\
    dom (files w) ⊆ dom (files w') /\
    (forall p, p <> raw_path U video RAW_DIR -> p <> clean_path U video CLEAN_DIR ->
       files w' !! p = files w !! p) /\
    requests w' = requests w ++ reqs /\
    (1 <= length reqs <= 3)%nat /\
    Forall (transcript_request (v_id video)) reqs /\
    stdout w' = stdout w ++ processing_line total i video :: out ++ [mark] /\
    (out = [] \/ exists e, out = [could_not_get (v_id video) e]) /\
    ((mark = SAVED /\ c' = (S successful, failed)) \/
     ((mark = NO_TRANSCRIPT \/ exists e, mark = ERROR_PROCESSING e) /\
      c' = (successful, S failed))).
Proof.
  destruct (process_video_cases U E total i video successful failed w)
    as (fetched & w1 & Hget & Hcases).
  destruct (get_transcript_trace E (v_id video)
              (printed (processing_line total i video) w))
    as (fetched' & reqs & out & Hget' & Hlen & Hreqs & Hout).
  rewrite Hget in Hget'. injection Hget' as <- ->.
  destruct Hcases as [(Ht & _ & Hpv)|[(Ht & w2 & Hsave & _ & Hpv)|(Ht & e & w2 & Hsave & _ & Hpv)]].
  - eexists _, _, reqs, out, NO_TRANSCRIPT. split; [exact Hpv|].
    cbn [rested printed sleep print snd files stdout requests slept].
    split; [reflexivity|]. split; [trivial|]. split; [reflexivity|].
    split; [assumption|]. split; [assumption|].
    split; [now rewrite <- !app_assoc|]. split; [assumption|].
    right. split; [now left | reflexivity].
  - destruct (save_transcript_frame U E _ _ _ _ _ _ _ Hsave) as [Hdom Hother].
    destruct (save_transcript_clock U E _ _ _ _ _ _ _ Hsave) as (_ & Hso & Hsr).
    eexists _, _, reqs, out, SAVED. split; [exact Hpv|].
    cbn [rested printed sleep print snd files stdout requests slept] in *.
    split; [assumption|]. split; [assumption|]. split; [assumption|].
    split; [assumption|]. split; [assumption|].
    split; [rewrite Hso; now rewrite <- !app_assoc|]. split; [assumption|].
    now left.
  - destruct (save_transcript_frame U E _ _ _ _ _ _ _ Hsave) as [Hdom Hother].
    destruct (save_transcript_clock U E _ _ _ _ _ _ _ Hsave) as (_ & Hso & Hsr).
    eexists _, _, reqs, out, (ERROR_PROCESSING e). split; [exact Hpv|].
    cbn [rested printed sleep print snd files stdout requests slept] in *.
    split; [assumption|]. split; [assumption|]. split; [assumption|].
    split; [assumption|]. split; [assumption|].
    split; [rewrite Hso; now rewrite <- !app_assoc|]. split; [assumption|].
    right. split; [right; now exists e | reflexivity].
Qed.

(** The whole loop, with all it does to the world. *)
Lemma process_videos_effects (total : nat) (videos : list VideoDescriptor) :
  forall (i successful failed : nat) (w : World),
  exists s' f' w' reqs,
    process_videos U E total i videos (successful, failed) w = (Return (s', f'), w') /\
    dom (files w) ⊆ dom (files w') /\
    (forall p,
       (forall v, v ∈ videos ->
          p <> raw_path U v RAW_DIR /\ p <> clean_path U v CLEAN_DIR) ->
       files w' !! p = files w !! p) /\
    requests w' = requests w ++ reqs /\
    (length videos <= length reqs <= 3 * length videos)%nat /\
    Forall (fun r => exists v, v ∈ videos /\ transcript_request (v_id v) r) reqs /\
    (marked CHECK_MARK (stdout w') + successful
     = marked CHECK_MARK (stdout w) + s')%nat /\
    (marked BALLOT_X (stdout w') + failed = marked BALLOT_X (stdout w) + f')%nat.
Proof.
  induction videos as [|video rest IH]; intros i successful failed w.
  - exists successful, failed, w, []. rewrite app_nil_r. simpl.
    repeat split; trivial; lia.
  - cbn [process_videos]. unfold bind.
    destruct (process_video_effects total i video successful failed w)
      as (c1 & w1 & reqs1 & out & mark & Hpv & Hdom1 & Hother1 & Hreq1 & Hlen1
          & Hall1 & Hstdout & Hout & Hmark).
    rewrite Hpv. destruct c1 as [s1 f1].
    destruct (IH (S i) s1 f1 w1)
      as (s' & f' & w' & reqs2 & Hrun & Hdom2 & Hother2 & Hreq2 & Hlen2 & Hall2
          & Hsaved & Hfailed).
    exists s', f', w', (reqs1 ++ reqs2). split; [assumption|].
    split; [now transitivity (dom (files w1))|]. split.
    { intros p Hp. rewrite Hother2, Hother1; [reflexivity|..].
      - apply Hp. now left.
      - apply Hp. now left.
      - intros v Hv. apply Hp. now right. }
    split; [now rewrite Hreq2, Hreq1, app_assoc|].
    split; [rewrite length_app; simpl; lia|]. split.
    { apply Forall_app. split.
      - eapply Forall_impl; [exact Hall1|]. intros r Hr. exists video.
        split; [now left | assumption].
      - eapply Forall_impl; [exact Hall2|]. intros r (v & Hv & Hr). exists v.
        split; [now right | assumption]. }
    assert (Hheads : forall m, m = CHECK_MARK \/ m = BALLOT_X ->
              marked m (stdout w1)
              = (marked m (stdout w) + if decide (head mark = Some m) then 1 else 0)%nat).
    { intros m Hm. rewrite Hstdout. apply marked_round.
      - destruct Hm as [-> | ->]; discriminate.
      - destruct Hout as [-> | [e ->]]; [constructor|].
        repeat constructor. destruct Hm as [-> | ->]; discriminate. }
    rewrite (Hheads CHECK_MARK) in Hsaved by now left.
    rewrite (Hheads BALLOT_X) in Hfailed by now right.
    destruct Hmark as [[-> [= -> ->]]|[[-> | [e ->]] [= -> ->]]];
      cbn [head SAVED NO_TRANSCRIPT ERROR_PROCESSING] in Hsaved, Hfailed;
      repeat (rewrite decide_True in * by reflexivity);
      repeat (rewrite decide_False in * by discriminate);
      split; lia.
Qed.

End RunEffects.

Section RunProperties.

Variable U : UnicodeData.
Variable E : Env.

(** Whatever comes of it, the loop of the lister prints nothing and
    touches neither the files nor the clock. *)
Lemma fetch_pages_frame (fuel : nat) (key pid : pystr) :
  forall (token : option pystr) (videos : list VideoDescriptor) (w w' : World)
         (r : outcome (list VideoDescriptor)),
    fetch_pages E fuel key pid token videos w = (r, w') ->
    files w' = files w /\ stdout w' = stdout w /\ slept w' = slept w.
Proof.
  induction fuel as [|fuel IH]; intros token videos w w' r; cbn [fetch_pages].
  - now intros [= _ <-].
  - unfold bind, api_playlistItems_list.
    destruct (playlistItems_list E (requests w) key pid token) as [e|page];
      [now intros [= _ <-]|].
    destruct (token_truthy (nextPageToken page)).
    + intros H. now apply IH in H.
    + unfold ret. now intros [= _ <-].
Qed.

Lemma get_playlist_videos_frame (fuel : nat) (playlist_id api_key : pystr)
  (w w' : World) (r : outcome (list VideoDescriptor)) :
  get_playlist_videos E fuel playlist_id api_key w = (r, w') ->
  files w' = files w /\ slept w' = slept w /\
  stdout w' =
    stdout w ++ [py "Using cleaned playlist ID: " ++ clean_playlist_id playlist_id].
Proof.
  unfold get_playlist_videos, bind, api_build. cbn [print].
  destruct (build E api_key); [unfold raise; now intros [= _ <-]|]. unfold ret.
  match goal with |- context [fetch_pages E fuel ?k ?p None [] ?w0] =>
    destruct (fetch_pages E fuel k p None [] w0) as [r0 w0'] eqn:Hrun
  end.
  apply fetch_pages_frame in Hrun as (Hf & Ho & Hs).
  destruct r0; intros [= _ <-]; now rewrite Hf, Ho, Hs.
Qed.

(** A round of the loop leaves the artifacts its count promises: when it
    counts a success, both files of the video are on disk, the raw one
    with the serialised transcript and the clean one with the cleaned
    text; when nothing came back from the fetcher, no file has changed. *)
Theorem process_video_artifacts (total i : nat) (video : VideoDescriptor)
  (successful failed : nat) (w : World) :
  exists (fetched : option Transcript) (w1 : World) (c' : counters) (w' : World),
    get_transcript E (v_id video) (printed (processing_line total i video) w)
    = (Return fetched, w1) /\
    process_video U E total i video (successful, failed) w = (Return c', w') /\
    (c' = (S successful, failed) ->
     exists l,
       fetched = Some l /\ l <> [] /\
       files w' !! raw_path U video RAW_DIR = Some (json_dump E l) /\
       files w' !! clean_path U video CLEAN_DIR = Some (clean_transcript fetched)) /\
    (truthy fetched = false -> files w' = files w).
Proof.
  destruct (process_video_cases U E total i video successful failed w)
    as (fetched & w1 & Hget & Hcases).
  destruct (get_transcript_returns E (v_id video)
              (printed (processing_line total i video) w)) as (r & w1' & Hget' & Hf1 & _).
  rewrite Hget in Hget'. injection Hget' as <- <-.
  exists fetched, w1.
  destruct Hcases as [(Ht & _ & Hpv)|[(Ht & w2 & Hsave & _ & Hpv)|(Ht & e & w2 & Hsave & _ & Hpv)]];
    eexists _, _; (split; [exact Hget|]); (split; [exact Hpv|]); split;
    try (intros [= H _]; lia); try (intros [= _ H]; lia);
    try (rewrite Ht; discriminate).
  - intros _. exact Hf1.
  - intros _. destruct (save_transcript_true U E _ _ _ _ _ _ Hsave)
      as (l & Hl & Hne & Hraw & Hclean).
    exists l. now repeat split.
Qed.

(** The loop asks the transcript API at least once and at most three
    times for each video, for the videos of the list and no other, and
    sends nothing else. *)
Theorem transcript_requests_bounded (total i : nat) (videos : list VideoDescriptor)
  (successful failed : nat) (w : World) :
  exists c' w' reqs,
    process_videos U E total i videos (successful, failed) w = (Return c', w') /\
    requests w' = requests w ++ reqs /\
    (length videos <= length reqs <= 3 * length videos)%nat /\
    Forall (fun r => exists v, v ∈ videos /\ transcript_request (v_id v) r) reqs.
Proof.
  destruct (process_videos_effects U E total videos i successful failed w)
    as (s' & f' & w' & reqs & Hrun & _ & _ & Hreq & Hlen & Hall & _).
  now exists (s', f'), w', reqs.
Qed.

(** A run removes no file and changes none but the raw and clean
    artifacts of the videos listed; a run that fails at the listing
    changes none at all. *)
Theorem main_writes_only_artifacts (fuel : nat) (PLAYLIST_ID YOUTUBE_API_KEY : pystr)
  (w : World) :
  match get_playlist_videos E fuel PLAYLIST_ID YOUTUBE_API_KEY
          (printed (py "Fetching videos from playlist: " ++ PLAYLIST_ID) w) with
  | (Return listed, _) =>
      exists c' w',
        main U E fuel PLAYLIST_ID YOUTUBE_API_KEY w = (Return c', w') /\
        dom (files w) ⊆ dom (files w') /\
        (forall p,
           (forall v, v ∈ listed ->
              p <> raw_path U v RAW_DIR /\ p <> clean_path U v CLEAN_DIR) ->
           files w' !! p = files w !! p)
  | (Raise e, w1) =>
      main U E fuel PLAYLIST_ID YOUTUBE_API_KEY w = (Raise e, w1) /\
      files w1 = files w
  | (Diverge, w1) =>
      main U E fuel PLAYLIST_ID YOUTUBE_API_KEY w = (Diverge, w1) /\
      files w1 = files w
  end.
Proof.
  unfold main, bind. cbn [print fst snd].
  change {| files := files w;
            stdout := stdout w ++ [py "Fetching videos from playlist: " ++ PLAYLIST_ID];
            requests := requests w; slept := slept w |}
    with (printed (py "Fetching videos from playlist: " ++ PLAYLIST_ID) w).
  destruct (get_playlist_videos E fuel PLAYLIST_ID YOUTUBE_API_KEY _)
    as [[listed|e|] w1] eqn:Hlist;
    apply get_playlist_videos_frame in Hlist as (Hf1 & _ & _);
    [|now split ..].
  match goal with |- context [process_videos U E ?n 0 listed (0, 0)%nat ?w2] =>
    destruct (process_videos_effects U E n listed 0 0 0 w2)
      as (s' & f' & w' & reqs & Hrun & Hdom & Hother & _)
  end.
  rewrite Hrun. eexists _, _. split; [reflexivity|].
  cbn [files] in *. rewrite Hf1 in Hdom, Hother. now split.
Qed.

(** The tally agrees with the console: the run ends with [successful]
    more lines that begin with the check mark than there were, and with
    [failed] more that begin with the ballot cross. *)
Theorem tally_matches_console (fuel : nat) (PLAYLIST_ID YOUTUBE_API_KEY : pystr)
  (w : World) :
  match get_playlist_videos E fuel PLAYLIST_ID YOUTUBE_API_KEY
          (printed (py "Fetching videos from playlist: " ++ PLAYLIST_ID) w) with
  | (Return listed, _) =>
      exists s' f' w',
        main U E fuel PLAYLIST_ID YOUTUBE_API_KEY w = (Return (s', f'), w') /\
        marked CHECK_MARK (stdout w') = (marked CHECK_MARK (stdout w) + s')%nat /\
        marked BALLOT_X (stdout w') = (marked BALLOT_X (stdout w) + f')%nat
  | (_, w1) =>
      marked CHECK_MARK (stdout w1) = marked CHECK_MARK (stdout w) /\
      marked BALLOT_X (stdout w1) = marked BALLOT_X (stdout w)
  end.
Proof.
  assert (Hplain : forall m lines more,
            m = CHECK_MARK \/ m = BALLOT_X ->
            Forall (fun line => exists c t, line = c :: t /\ c <> CHECK_MARK /\ c <> BALLOT_X)
              more ->
            marked m (lines ++ more) = marked m lines).
  { intros m lines more Hm Hmore. rewrite marked_app, (marked_none m more); [lia|].
    eapply Forall_impl; [exact Hmore|]. intros line (c & t & -> & H1 & H2).
    simpl. destruct Hm as [-> | ->]; congruence. }
  assert (Hline : forall (c : N) (t : pystr), c <> CHECK_MARK -> c <> BALLOT_X ->
            exists c0 t0, c :: t = c0 :: t0 /\ c0 <> CHECK_MARK /\ c0 <> BALLOT_X)
    by (intros c t ? ?; now exists c, t).
  unfold main, bind. cbn [print fst snd].
  change {| files := files w;
            stdout := stdout w ++ [py "Fetching videos from playlist: " ++ PLAYLIST_ID];
            requests := requests w; slept := slept w |}
    with (printed (py "Fetching videos from playlist: " ++ PLAYLIST_ID) w).
  destruct (get_playlist_videos E fuel PLAYLIST_ID YOUTUBE_API_KEY _)
    as [[listed|e|] w1] eqn:Hlist;
    apply get_playlist_videos_frame in Hlist as (_ & _ & Hout1);
    cbn [printed print snd stdout] in Hout1.
  2,3: rewrite Hout1, <- app_assoc; split; apply Hplain; auto;
       repeat constructor; apply Hline; discriminate.
  match goal with |- context [process_videos U E ?n 0 listed (0, 0)%nat ?w2] =>
    destruct (process_videos_effects U E n listed 0 0 0 w2)
      as (s' & f' & w' & reqs & Hrun & _ & _ & _ & _ & _ & Hsaved & Hfailed)
  end.
  rewrite Hrun. eexists s', f', _. split; [reflexivity|].
  cbn [stdout] in *. rewrite Hout1 in Hsaved, Hfailed.
  rewrite <- !app_assoc in Hsaved, Hfailed.
  rewrite (Hplain CHECK_MARK (stdout w)) in Hsaved
    by (auto; repeat constructor; apply Hline; discriminate).
  rewrite (Hplain BALLOT_X (stdout w)) in Hfailed
    by (auto; repeat constructor; apply Hline; discriminate).
  rewrite <- !app_assoc.
  split.
  - rewrite (Hplain CHECK_MARK (stdout w'))
      by (auto; repeat constructor; apply Hline; discriminate). lia.
  - rewrite (Hplain BALLOT_X (stdout w'))
      by (auto; repeat constructor; apply Hline; discriminate). lia.
Qed.

End RunProperties.

(** ** Edge cases: an empty transcript, a second run *)

(** An empty transcript is an answer like any other to the fetcher: when
    the first request returns one, no other language is tried and nothing
    is printed by the fetcher; the orchestrator then counts the video as
    failed, prints that no transcript is available and writes no file. *)
Theorem empty_transcript_stops_fallback (U : UnicodeData) (E : Env)
  (total i : nat) (video : VideoDescriptor) (successful failed : nat) (w : World) :
  YouTubeTranscriptApi_get_transcript E (requests w) (v_id video) (Some [LANG_HI])
  = inr [] ->
  process_video U E total i video (successful, failed) w
  = (Return (successful, S failed),
     {| files := files w;
        stdout := stdout w ++ [processing_line total i video; NO_TRANSCRIPT];
        requests := requests w ++ [attempt_hi (v_id video)];
        slept := slept w + 1 |}).
Proof.
  intros Hempty.
  unfold process_video, try_except, try_video, bind, get_transcript, try_except,
    bind, api_get_transcript, ret.
  cbn [print sleep fst snd requests files stdout slept]. rewrite Hempty.
  cbn [truthy requests files stdout slept]. now rewrite <- app_assoc.
Qed.

Lemma empty_transcript_stops_fallback_witness :
  process_video ascii_table silent_env 3 0 demo_video (0, 0)%nat empty_world
  = (Return (0, 1)%nat,
     {| files := ∅;
        stdout := [processing_line 3 0 demo_video; NO_TRANSCRIPT];
        requests := [attempt_hi (py "v0")];
        slept := 1 |}).
Proof.
  apply (empty_transcript_stops_fallback ascii_table silent_env 3 0 demo_video
           0 0 empty_world).
  reflexivity.
Defined.

(** Saving the same transcript again changes nothing on a disk that lets
    every file be opened: the two files are overwritten with what they
    hold already. *)
Theorem save_transcript_again (U : UnicodeData) (E : Env) (v : VideoDescriptor)
  (t : option Transcript) (raw_dir clean_dir : pystr) (w : World) :
  (forall fs path, open_w E fs path = None) ->
  exists r w1,
    save_transcript U E v t raw_dir clean_dir w = (Return r, w1) /\
    save_transcript U E v t raw_dir clean_dir w1 = (Return r, w1).
Proof.
  intros Hopen. destruct t as [[|e es]|]; cbn [save_transcript]; unfold ret;
    try (now eexists _, _).
  unfold bind, write_file.
  repeat (rewrite ?Hopen; progress cbn [files stdout requests slept]).
  rewrite ?Hopen. eexists _, _. split; [reflexivity|].
  repeat (rewrite ?Hopen; progress cbn [files stdout requests slept]).
  rewrite ?Hopen. f_equal. f_equal.
  apply map_eq. intros p.
  destruct (decide (p = clean_path U v clean_dir)) as [->|Hc];
    [now rewrite !lookup_insert_eq|].
  rewrite (lookup_insert_ne _ (clean_path U v clean_dir)) by congruence.
  destruct (decide (p = raw_path U v raw_dir)) as [->|Hr].
  - rewrite lookup_insert_eq.
    now rewrite lookup_insert_ne, lookup_insert_eq by congruence.
  - now rewrite !lookup_insert_ne by congruence.
Qed.

Lemma save_transcript_again_witness :
  exists r w1,
    save_transcript ascii_table demo_env demo_video (Some demo_transcript)
      RAW_DIR CLEAN_DIR empty_world = (Return r, w1) /\
    save_transcript ascii_table demo_env demo_video (Some demo_transcript)
      RAW_DIR CLEAN_DIR w1 = (Return r, w1).
Proof.
  apply (save_transcript_again ascii_table demo_env demo_video (Some demo_transcript)
           RAW_DIR CLEAN_DIR empty_world).
  reflexivity.
Defined.
